(** * ccan/net: connection racer and dual-stack binder

    A shallow embedding of [ccan/net/net.c].  The operating system is an
    oracle answering every system call from the history of the calls made
    so far; the program threads the ambient [errno] and the call history
    through a small state-and-fault monad.  Stack arrays are lists indexed
    by the (32-bit unsigned) loop counter; an index outside the array is
    undefined behaviour and ends the run in [Undef]. *)

From Stdlib Require Import ZArith List Lia Bool.
From stdpp Require Import base numbers list.
Import ListNotations.
Open Scope Z_scope.

(** ** Constants of the system headers (Linux values) *)

Definition AF_INET : Z := 2.
Definition AF_INET6 : Z := 10.
Definition SOCK_STREAM : Z := 1.
Definition SOCK_SEQPACKET : Z := 5.
Definition O_NONBLOCK : Z := 2048.
Definition EINPROGRESS : Z := 115.
Definition POLLOUT : Z := 4.
Definition sizeof_sockaddr_in : Z := 16.
Definition sizeof_sockaddr_in6 : Z := 28.

(** We only handle IPv4 and IPv6 *)
Definition MAX_PROTOS : Z := 2.

(** [unsigned int] arithmetic wraps modulo 2^32. *)
Definition u32 (z : Z) : Z := z mod 2 ^ 32.

(** ** Data *)

(** [struct addrinfo]; the list of candidates is the [ai_next] chain, the
    empty list being the NULL pointer.  The socket address is an opaque
    token. *)
Record addrinfo : Type := mk_addrinfo {
  ai_family : Z;
  ai_socktype : Z;
  ai_protocol : Z;
  ai_addrlen : Z;
  ai_addr : Z
}.

Record pollfd : Type := mk_pollfd {
  fd : Z;
  events : Z;
  revents : Z
}.

Definition set_fd (p : pollfd) (v : Z) : pollfd :=
  {| fd := v; events := events p; revents := revents p |}.
Definition set_events (p : pollfd) (v : Z) : pollfd :=
  {| fd := fd p; events := v; revents := revents p |}.
Definition set_revents (p : pollfd) (v : Z) : pollfd :=
  {| fd := fd p; events := events p; revents := v |}.

(** ** The operating system *)

(** Every system call the program makes, with its arguments and result. *)
Inductive event : Type :=
| EvSocket (family socktype protocol ret : Z)
| EvGetfl (fd ret : Z)
| EvSetfl (fd flags ret : Z)
| EvConnect (fd sa len ret : Z)
| EvPoll (fds : list pollfd) (ret : Z)
| EvGetsockopt (fd ret err : Z)
| EvSetsockopt (fd ret : Z)
| EvBind (fd sa len ret : Z)
| EvListen (fd backlog ret : Z)
| EvClose (fd : Z).

(** The part of the process state the program shares with the system:
    [errno] and the history of calls, oldest first. *)
Record World : Type := mk_world {
  errno : Z;
  trace : list event
}.

Definition set_errno (w : World) (e : Z) : World :=
  {| errno := e; trace := trace w |}.

(** An operating system answers a call, given the world it is made in, with
    the call's return value and the value [errno] has afterwards.  [poll]
    also answers with the [revents] it stores, [getsockopt] with the pending
    error it stores. *)
Record OS : Type := mk_os {
  os_socket : World -> Z -> Z -> Z -> Z * Z;
  os_getfl : World -> Z -> Z * Z;
  os_setfl : World -> Z -> Z -> Z * Z;
  os_connect : World -> Z -> Z -> Z -> Z * Z;
  os_poll : World -> list pollfd -> Z * list Z * Z;
  os_getsockopt : World -> Z -> Z * Z * Z;
  os_setsockopt : World -> Z -> Z * Z;
  os_bind : World -> Z -> Z -> Z -> Z * Z;
  os_listen : World -> Z -> Z -> Z * Z;
  os_close : World -> Z -> Z * Z
}.

Definition record (w : World) (e : Z) (ev : event) : World :=
  {| errno := e; trace := trace w ++ [ev] |}.

Section Syscalls.
Variable os : OS.

Definition sys_socket (family socktype protocol : Z) (w : World) : Z * World :=
  let '(r, e) := os_socket os w family socktype protocol in
  (r, record w e (EvSocket family socktype protocol r)).

Definition sys_getfl (fd : Z) (w : World) : Z * World :=
  let '(r, e) := os_getfl os w fd in (r, record w e (EvGetfl fd r)).

Definition sys_setfl (fd flags : Z) (w : World) : Z * World :=
  let '(r, e) := os_setfl os w fd flags in (r, record w e (EvSetfl fd flags r)).

Definition sys_connect (fd sa len : Z) (w : World) : Z * World :=
  let '(r, e) := os_connect os w fd sa len in
  (r, record w e (EvConnect fd sa len r)).

Definition sys_poll (fds : list pollfd) (w : World) : Z * list Z * World :=
  let '(r, revs, e) := os_poll os w fds in
  (r, revs, record w e (EvPoll fds r)).

Definition sys_getsockopt (fd : Z) (w : World) : Z * Z * World :=
  let '(r, err, e) := os_getsockopt os w fd in
  (r, err, record w e (EvGetsockopt fd r err)).

Definition sys_setsockopt (fd : Z) (w : World) : Z * World :=
  let '(r, e) := os_setsockopt os w fd in (r, record w e (EvSetsockopt fd r)).

Definition sys_bind (fd sa len : Z) (w : World) : Z * World :=
  let '(r, e) := os_bind os w fd sa len in (r, record w e (EvBind fd sa len r)).

Definition sys_listen (fd backlog : Z) (w : World) : Z * World :=
  let '(r, e) := os_listen os w fd backlog in
  (r, record w e (EvListen fd backlog r)).

Definition sys_close (fd : Z) (w : World) : Z * World :=
  let '(r, e) := os_close os w fd in (r, record w e (EvClose fd)).

(** *** [set_nonblock] *)
Definition set_nonblock (fd : Z) (nonblock : bool) (w : World) : bool * World :=
  let '(flags, w) := sys_getfl fd w in
  if flags =? -1 then (false, w)
  else
    let flags :=
      if nonblock then Z.lor flags O_NONBLOCK
      else Z.land flags (Z.lnot O_NONBLOCK) in
    let '(r, w) := sys_setfl fd flags w in
    (r =? 0, w).

(** *** [should_listen] *)
Definition should_listen (a : addrinfo) : bool :=
  if ai_socktype a =? SOCK_SEQPACKET then true
  else ai_socktype a =? SOCK_STREAM.

(** *** [make_listen_fd] *)

(** The [fail:] label: close the socket, keeping [errno]. *)
Definition listen_fail (fd : Z) (w : World) : Z * World :=
  let saved_errno := errno w in
  let '(_, w) := sys_close fd w in
  (-1, set_errno w saved_errno).

Definition make_listen_fd (a : addrinfo) (w : World) : Z * World :=
  let '(fd, w) := sys_socket (ai_family a) (ai_socktype a) (ai_protocol a) w in
  if fd <? 0 then (-1, w)
  else
    let '(_, w) := sys_setsockopt fd w in
    let '(r, w) := sys_bind fd (ai_addr a) (ai_addrlen a) w in
    if negb (r =? 0) then listen_fail fd w
    else if should_listen a then
      let '(r, w) := sys_listen fd 5 w in
      if negb (r =? 0) then listen_fail fd w else (fd, w)
    else (fd, w).
End Syscalls.

(** ** Runs of a function

    A run returns a value, with the function's local state and the world it
    leaves; or it meets undefined behaviour (an access outside an array, a
    NULL dereference); or it exhausts the bound the model puts on the number
    of loop iterations. *)
Inductive outcome (S A : Type) : Type :=
| Ret (a : A) (s : S) (w : World)
| Undef (w : World)
| Spin (w : World).
Arguments Ret {S A} a s w.
Arguments Undef {S A} w.
Arguments Spin {S A} w.

Definition final_world {S A : Type} (o : outcome S A) : World :=
  match o with Ret _ _ w => w | Undef w => w | Spin w => w end.

Definition returned {S A : Type} (o : outcome S A) : option A :=
  match o with Ret a _ _ => Some a | _ => None end.

(** ** Arrays *)

(** [l[idx]] as an rvalue. *)
Definition load {A : Type} (l : list A) (idx : Z) : option A :=
  if (0 <=? idx) && (idx <? Z.of_nat (length l))
  then l !! Z.to_nat idx else None.

(** [l[idx] = v]. *)
Definition store {A : Type} (l : list A) (idx : Z) (v : A) : option (list A) :=
  if (0 <=? idx) && (idx <? Z.of_nat (length l))
  then Some (<[Z.to_nat idx := v]> l) else None.

(** [memmove(l + dst, l + src, n * sizeof(l[0]))]: both ranges must lie
    inside the array. *)
Definition memmove {A : Type} (l : list A) (dst src n : Z) : option (list A) :=
  if (0 <=? dst) && (0 <=? src) && (0 <=? n)
     && (src + n <=? Z.of_nat (length l)) && (dst + n <=? Z.of_nat (length l))
  then Some (take (Z.to_nat dst) l
             ++ take (Z.to_nat n) (drop (Z.to_nat src) l)
             ++ drop (Z.to_nat (dst + n)) l)
  else None.

(** ** [net_bind] *)

(** The two slots [(ipv4, ipv6)] after looking at the first entry and at
    the one after it. *)
Definition bind_slots (a : addrinfo) (next : list addrinfo)
  : option addrinfo * option addrinfo :=
  let ipv6 : option addrinfo := None in
  let ipv4 : option addrinfo := None in
  let '(ipv4, ipv6) :=
    if ai_family a =? AF_INET then (Some a, ipv6)
    else if ai_family a =? AF_INET6 then (ipv4, Some a)
    else (ipv4, ipv6) in
  match next with
  | b :: _ =>
      if ai_family b =? AF_INET then (Some b, ipv6)
      else if ai_family b =? AF_INET6 then (ipv4, Some b)
      else (ipv4, ipv6)
  | [] => (ipv4, ipv6)
  end.

Section Bind.
Variable os : OS.

(** [if (slot) { if ((fds[num] = make_listen_fd(slot)) >= 0) num++; ... }];
    the local state is the caller's array [fds] and the counter [num]. *)
Definition bind_slot (slot : option addrinfo) (fds : list Z) (num : Z) (w : World)
  : outcome (list Z * Z) unit :=
  match slot with
  | None => Ret tt (fds, num) w
  | Some a =>
      let '(r, w) := make_listen_fd os a w in
      match store fds num r with
      | None => Undef w
      | Some fds => Ret tt (fds, if r >=? 0 then u32 (num + 1) else num) w
      end
  end.

Definition net_bind (ai : list addrinfo) (fds : list Z) (w : World)
  : outcome (list Z) Z :=
  match ai with
  | [] => Undef w
  | a :: next =>
      let '(ipv4, ipv6) := bind_slots a next in
      let num := 0 in
      (* Take IPv6 first, since it might bind to IPv4 port too. *)
      match bind_slot ipv6 fds num w with
      | Ret _ (fds, num) w =>
          match bind_slot ipv4 fds num w with
          | Ret _ (fds, num) w =>
              if num =? 0 then Ret (-1) fds w else Ret num fds w
          | Undef w => Undef w
          | Spin w => Spin w
          end
      | Undef w => Undef w
      | Spin w => Spin w
      end
  end.
End Bind.

(** ** [net_connect] *)

(** The local variables. *)
Record Frame : Type := mk_frame {
  sockfd : Z;
  i : Z;
  num : Z;
  pfd : list pollfd;
  addr : list (option addrinfo);
  slen : list Z
}.

Definition set_sockfd (v : Z) (fr : Frame) : Frame :=
  {| sockfd := v; i := i fr; num := num fr; pfd := pfd fr; addr := addr fr;
     slen := slen fr |}.
Definition set_i (v : Z) (fr : Frame) : Frame :=
  {| sockfd := sockfd fr; i := v; num := num fr; pfd := pfd fr; addr := addr fr;
     slen := slen fr |}.
Definition set_num (v : Z) (fr : Frame) : Frame :=
  {| sockfd := sockfd fr; i := i fr; num := v; pfd := pfd fr; addr := addr fr;
     slen := slen fr |}.
Definition set_pfd (v : list pollfd) (fr : Frame) : Frame :=
  {| sockfd := sockfd fr; i := i fr; num := num fr; pfd := v; addr := addr fr;
     slen := slen fr |}.
Definition set_addr (v : list (option addrinfo)) (fr : Frame) : Frame :=
  {| sockfd := sockfd fr; i := i fr; num := num fr; pfd := pfd fr; addr := v;
     slen := slen fr |}.
Definition set_slen (v : list Z) (fr : Frame) : Frame :=
  {| sockfd := sockfd fr; i := i fr; num := num fr; pfd := pfd fr; addr := addr fr;
     slen := v |}.

(** What the stack holds where the arrays are allocated: their contents are
    indeterminate until assigned.  An [addr] entry not yet assigned is an
    invalid pointer. *)
Record Stack : Type := mk_stack {
  stk_pfd : nat -> pollfd;
  stk_slen : nat -> Z
}.

Definition enter (g : Stack) : Frame :=
  {| sockfd := -1; i := 0; num := 0;
     pfd := map (stk_pfd g) (seq 0 (Z.to_nat MAX_PROTOS));
     addr := replicate (Z.to_nat MAX_PROTOS) None;
     slen := map (stk_slen g) (seq 0 (Z.to_nat MAX_PROTOS)) |}.

(** *** The monad *)

Definition M (A : Type) : Type := Frame -> World -> outcome Frame A.

Definition ret {A : Type} (a : A) : M A := fun fr w => Ret a fr w.

Definition bind {A B : Type} (m : M A) (k : A -> M B) : M B :=
  fun fr w =>
    match m fr w with
    | Ret a fr w => k a fr w
    | Undef w => Undef w
    | Spin w => Spin w
    end.

Notation "x <- m ;; k" := (bind m (fun x => k))
  (at level 100, m at next level, right associativity).
Notation "m ;; k" := (bind m (fun _ => k))
  (at level 100, right associativity).

Definition get : M Frame := fun fr w => Ret fr fr w.
Definition modify (f : Frame -> Frame) : M unit := fun fr w => Ret tt (f fr) w.
Definition undef {A : Type} : M A := fun _ w => Undef w.
Definition spin {A : Type} : M A := fun _ w => Spin w.
Definition sys {A : Type} (call : World -> A * World) : M A :=
  fun fr w => let '(a, w) := call w in Ret a fr w.
Definition get_errno : M Z := fun fr w => Ret (errno w) fr w.
Definition put_errno (e : Z) : M unit := fun fr w => Ret tt fr (set_errno w e).
Definition defined {A : Type} (o : option A) : M A :=
  match o with Some a => ret a | None => undef end.

(** Where control goes after a loop body: on to the increment, or to one of
    the two labels. *)
Inductive flow : Type := Next | GotOne | Out.

(** Scan for the first candidate of each family. *)
Fixpoint scan (ai : list addrinfo) (ipv4 ipv6 : option addrinfo)
  : option addrinfo * option addrinfo :=
  match ai with
  | [] => (ipv4, ipv6)
  | a :: next =>
      if ai_family a =? AF_INET then
        scan next (match ipv4 with None => Some a | Some _ => ipv4 end) ipv6
      else if ai_family a =? AF_INET6 then
        scan next ipv4 (match ipv6 with None => Some a | Some _ => ipv6 end)
      else scan next ipv4 ipv6
  end.

(** [pfd[idx].events = POLLOUT] and the like: the entry must exist. *)
Definition update_pfd (idx : Z) (f : pollfd -> pollfd) : M unit :=
  fr <- get;;
  p <- defined (load (pfd fr) idx);;
  l <- defined (store (pfd fr) idx (f p));;
  modify (set_pfd l).

(** [for (...; i < num; i++) body], entered with [i] already set.  Every
    iteration of the loops below makes [num - i] smaller, which bounds their
    number. *)
Fixpoint iterate (n : nat) (body : M flow) : M flow :=
  fr <- get;;
  if i fr <? num fr then
    match n with
    | O => spin
    | S n =>
        c <- body;;
        match c with
        | Next => fr <- get;; modify (set_i (u32 (i fr + 1)));; iterate n body
        | _ => ret c
        end
    end
  else ret Next.

Definition for_loop (body : M flow) : M flow :=
  fr <- get;; iterate (Z.to_nat (num fr - i fr)) body.

(** [poll] stores the [revents] of the entries it was given. *)
Fixpoint store_revents (l : list pollfd) (revs : list Z) : list pollfd :=
  match l with
  | [] => []
  | p :: l => set_revents p (hd 0 revs) :: store_revents l (tl revs)
  end.

Section Connect.
Variable os : OS.

Definition remove_fd (idx : Z) : M unit :=
  fr <- get;;
  let n := u32 (num fr - idx - 1) in
  pfd' <- defined (memmove (pfd fr) idx (idx + 1) n);;
  addr' <- defined (memmove (addr fr) idx (idx + 1) n);;
  slen' <- defined (memmove (slen fr) idx (idx + 1) n);;
  modify (fun fr => set_num (u32 (num fr - 1))
                      (set_slen slen' (set_addr addr' (set_pfd pfd' fr)))).

(** [if (slot) { addr[num] = slot; slen[num] = len;
                 pfd[num].fd = socket(family, ...); if (... != -1) num++; }] *)
Definition open_slot (slot : option addrinfo) (family len : Z) : M unit :=
  match slot with
  | None => ret tt
  | Some a =>
      fr <- get;;
      addr' <- defined (store (addr fr) (num fr) (Some a));;
      modify (set_addr addr');;
      slen' <- defined (store (slen fr) (num fr) len);;
      modify (set_slen slen');;
      s <- sys (sys_socket os family (ai_socktype a) (ai_protocol a));;
      update_pfd (num fr) (fun p => set_fd p s);;
      if negb (s =? -1) then modify (set_num (u32 (num fr + 1))) else ret tt
  end.

(** Body of the loop that starts the connections. *)
Definition connect_body : M flow :=
  fr <- get;;
  p <- defined (load (pfd fr) (i fr));;
  ok <- sys (set_nonblock os (fd p) true);;
  if negb ok then
    remove_fd (i fr);; modify (set_i (u32 (i fr - 1)));; ret Next
  else
    a <- defined (load (addr fr) (i fr));;
    a <- defined a;;
    len <- defined (load (slen fr) (i fr));;
    (* Connect *can* be instant. *)
    r <- sys (sys_connect os (fd p) (ai_addr a) len);;
    if r =? 0 then ret GotOne
    else
      e <- get_errno;;
      (if negb (e =? EINPROGRESS) then
         (* Remove dead one. *)
         remove_fd (i fr);; modify (set_i (u32 (i fr - 1)))
       else ret tt);;
      fr <- get;;
      update_pfd (i fr) (fun p => set_events p POLLOUT);;
      ret Next.

(** Body of the loop over the entries [poll] reported on. *)
Definition poll_body : M flow :=
  fr <- get;;
  p <- defined (load (pfd fr) (i fr));;
  if revents p =? 0 then ret Next
  else
    x <- sys (sys_getsockopt os (fd p));;
    let '(r, err) := x in
    if negb (r =? 0) then ret Out
    else if err =? 0 then ret GotOne
    else
      (* Remove dead one. *)
      put_errno err;;
      remove_fd (i fr);; modify (set_i (u32 (i fr - 1)));; ret Next.

(** [poll(pfd, num, -1)]: the system is given the first [num] entries and,
    unless it fails, stores their [revents]. *)
Definition poll_pfd : M Z :=
  fr <- get;;
  (if num fr <=? Z.of_nat (length (pfd fr)) then ret tt else undef);;
  let polled := take (Z.to_nat (num fr)) (pfd fr) in
  x <- sys (sys_poll os polled);;
  let '(r, revs) := x in
  if r =? -1 then ret r
  else
    modify (set_pfd (store_revents polled revs
                     ++ drop (Z.to_nat (num fr)) (pfd fr)));;
    ret r.

(** [while (num && poll(pfd, num, -1) != -1) for (i = 0; ...) ...];
    [fuel] bounds the number of calls of [poll]. *)
Fixpoint poll_loop (fuel : nat) : M flow :=
  fr <- get;;
  if num fr =? 0 then ret Next
  else
    match fuel with
    | O => spin
    | S fuel =>
        r <- poll_pfd;;
        if r =? -1 then ret Next
        else
          modify (set_i 0);;
          c <- for_loop poll_body;;
          match c with
          | Next => poll_loop fuel
          | _ => ret c
          end
    end.

(** The [got_one:] label. *)
Definition got_one : M unit :=
  fr <- get;;
  p <- defined (load (pfd fr) (i fr));;
  (* We don't want to hand them a non-blocking socket! *)
  ok <- sys (set_nonblock os (fd p) false);;
  if ok then modify (set_sockfd (fd p)) else ret tt.

Definition close_body : M flow :=
  fr <- get;;
  p <- defined (load (pfd fr) (i fr));;
  (if negb (fd p =? sockfd fr) then _ <- sys (sys_close os (fd p));; ret tt
   else ret tt);;
  ret Next.

(** The [out:] label. *)
Definition out : M Z :=
  saved_errno <- get_errno;;
  modify (set_i 0);;
  for_loop close_body;;
  put_errno saved_errno;;
  fr <- get;;
  ret (sockfd fr).

(** The sockets, one per recorded candidate. *)
Definition open_sockets (ipv4 ipv6 : option addrinfo) : M unit :=
  modify (set_num 0);;
  (* We give IPv6 a slight edge by connecting it first. *)
  open_slot ipv6 AF_INET6 sizeof_sockaddr_in6;;
  open_slot ipv4 AF_INET sizeof_sockaddr_in.

(** The first loop: start connecting every socket. *)
Definition start_connecting : M flow :=
  modify (set_i 0);; for_loop connect_body.

(** Everything up to the labels: the scan, the sockets, the connection
    attempts and the wait. *)
Definition race (fuel : nat) (ai : list addrinfo) : M flow :=
  let '(ipv4, ipv6) := scan ai None None in
  open_sockets ipv4 ipv6;;
  c <- start_connecting;;
  match c with
  | Next => poll_loop fuel
  | _ => ret c
  end.

Definition net_connect_m (fuel : nat) (ai : list addrinfo) : M Z :=
  c <- race fuel ai;;
  (match c with
   | Out => ret tt
   | _ => got_one   (* jumped to, or fallen into from the wait loop *)
   end);;
  out.

Definition net_connect (fuel : nat) (ai : list addrinfo)
           (g : Stack) (w : World) : outcome Frame Z :=
  net_connect_m fuel ai (enter g) w.
End Connect.

(** ** Scripted operating systems

    A concrete operating system that answers the n-th call of a run with the
    n-th reply of a script. *)
Record reply : Type := mk_reply {
  r_ret : Z;
  r_errno : option Z;   (* [None]: [errno] is left as it is *)
  r_revents : list Z;
  r_err : Z
}.

Definition ok (v : Z) : reply :=
  {| r_ret := v; r_errno := None; r_revents := []; r_err := 0 |}.
Definition failing (e : Z) : reply :=
  {| r_ret := -1; r_errno := Some e; r_revents := []; r_err := 0 |}.
Definition ready (revs : list Z) : reply :=
  {| r_ret := 1; r_errno := None; r_revents := revs; r_err := 0 |}.
Definition pending_error (err : Z) : reply :=
  {| r_ret := 0; r_errno := None; r_revents := []; r_err := err |}.

Definition next_reply (script : list reply) (w : World) : reply :=
  nth (length (trace w)) script (failing 0).

Definition next_errno (script : list reply) (w : World) : Z :=
  default (errno w) (r_errno (next_reply script w)).

Definition scripted (script : list reply) : OS :=
  let plain (w : World) := (r_ret (next_reply script w), next_errno script w) in
  {| os_socket := fun w _ _ _ => plain w;
     os_getfl := fun w _ => plain w;
     os_setfl := fun w _ _ => plain w;
     os_connect := fun w _ _ _ => plain w;
     os_poll := fun w _ =>
       (r_ret (next_reply script w), r_revents (next_reply script w),
        next_errno script w);
     os_getsockopt := fun w _ =>
       (r_ret (next_reply script w), r_err (next_reply script w),
        next_errno script w);
     os_setsockopt := fun w _ => plain w;
     os_bind := fun w _ _ _ => plain w;
     os_listen := fun w _ _ => plain w;
     os_close := fun w _ => plain w |}.

Definition ENETUNREACH : Z := 101.
Definition ECONNREFUSED : Z := 111.
Definition EINTR : Z := 4.
Definition ENOPROTOOPT : Z := 92.
Definition POLLERR : Z := 8.
Definition SOCK_DGRAM : Z := 2.

Definition boot : World := {| errno := 0; trace := [] |}.
Definition zeroed : Stack :=
  {| stk_pfd := fun _ => {| fd := 0; events := 0; revents := 0 |};
     stk_slen := fun _ => 0 |}.

Definition v4 (sa : Z) : addrinfo :=
  {| ai_family := AF_INET; ai_socktype := SOCK_STREAM; ai_protocol := 0;
     ai_addrlen := sizeof_sockaddr_in; ai_addr := sa |}.
Definition v6 (sa : Z) : addrinfo :=
  {| ai_family := AF_INET6; ai_socktype := SOCK_STREAM; ai_protocol := 0;
     ai_addrlen := sizeof_sockaddr_in6; ai_addr := sa |}.

(** IPv6 connection in progress, IPv4 refused at once (network unreachable);
    then IPv6 becomes writable with no pending error. *)
Definition script_leak : list reply :=
  [ ok 3; ok 4;
    ok 2; ok 0; failing EINPROGRESS;
    ok 2; ok 0; failing ENETUNREACH;
    ready [POLLOUT];
    pending_error 0;
    ok 2050; ok 0 ].

(** Both connections in progress; the first wait reports the IPv6 socket
    with connection refused; the second wait is interrupted by a signal. *)
Definition script_interrupted : list reply :=
  [ ok 3; ok 4;
    ok 2; ok 0; failing EINPROGRESS;
    ok 2; ok 0; failing EINPROGRESS;
    ready [POLLERR; 0];
    pending_error ECONNREFUSED;
    failing EINTR;
    ok 2050; ok 0 ].

(** One IPv4 candidate whose connection is refused at once. *)
Definition script_refused : list reply :=
  [ ok 3; ok 2; ok 0; failing ECONNREFUSED ].

(** No candidate: the only calls are the two [fcntl] of [set_nonblock]. *)
Definition script_empty : list reply := [ ok 2; ok 0 ].

(** Instant connection, then [fcntl(F_GETFL)] fails. *)
Definition script_instant_stuck : list reply :=
  [ ok 3; ok 2; ok 0; ok 0; failing EINTR; ok 0 ].

(** [setsockopt] fails; [bind] and [listen] succeed. *)
Definition script_no_reuse : list reply :=
  [ ok 3; failing ENOPROTOOPT; ok 0; ok 0 ].

(** ** Reading a run *)

(** The calls made by a run started in world [w]. *)
Definition run_calls {S A : Type} (w : World) (o : outcome S A) : list event :=
  drop (length (trace w)) (trace (final_world o)).

(** The descriptor an event declares connected: [connect] returning 0, or
    [getsockopt(SO_ERROR)] succeeding with no pending error. *)
Definition wins (ev : event) : option Z :=
  match ev with
  | EvConnect s _ _ r => if r =? 0 then Some s else None
  | EvGetsockopt s r err => if (r =? 0) && (err =? 0) then Some s else None
  | _ => None
  end.

(** No event of the list declares a descriptor connected. *)
Definition quiet (evs : list event) : Prop := Forall (fun ev => wins ev = None) evs.

Definition is_socket (ev : event) : bool :=
  match ev with EvSocket _ _ _ _ => true | _ => false end.
Definition is_connect (ev : event) : bool :=
  match ev with EvConnect _ _ _ _ => true | _ => false end.
Definition is_poll (ev : event) : bool :=
  match ev with EvPoll _ _ => true | _ => false end.

(** Family, type and protocol of a [socket] call; target of a [connect]. *)
Definition socket_args (ev : event) : Z * Z * Z :=
  match ev with EvSocket f t p _ => (f, t, p) | _ => (0, 0, 0) end.
Definition connect_target (ev : event) : Z * Z :=
  match ev with EvConnect _ sa len _ => (sa, len) | _ => (0, 0) end.

Definition is_fcntl (ev : event) : bool :=
  match ev with EvGetfl _ _ | EvSetfl _ _ _ => true | _ => false end.
Definition is_getsockopt (ev : event) : bool :=
  match ev with EvGetsockopt _ _ _ => true | _ => false end.
Definition is_close (ev : event) : bool :=
  match ev with EvClose _ => true | _ => false end.

(** The calls each part of [net_connect] can make. *)
Definition ev_setup (ev : event) : bool := is_fcntl ev || is_connect ev.
Definition ev_wait (ev : event) : bool := is_poll ev || is_getsockopt ev.
Definition ev_finish (ev : event) : bool := is_fcntl ev || is_close ev.

(** What a run started in [w] satisfies: [Q] of its result, final locals and
    calls when it returns, [U] of its calls when it meets undefined
    behaviour, [S] when it exhausts the iteration bound. *)
Definition sat {A : Type} (w : World) (o : outcome Frame A)
           (Q : A -> Frame -> list event -> Prop) (U S : list event -> Prop) : Prop :=
  exists evs, trace (final_world o) = trace w ++ evs
              /\ match o with
                 | Ret a fr _ => Q a fr evs
                 | Undef _ => U evs
                 | Spin _ => S evs
                 end.

(** The arrays have [MAX_PROTOS] cells, of which the first [num] hold a
    created socket and the candidate it is for. *)
Inductive live : Frame -> Prop :=
| live_0 sk ix p0 p1 a0 a1 s0 s1 :
    live {| sockfd := sk; i := ix; num := 0; pfd := [p0; p1]; addr := [a0; a1];
            slen := [s0; s1] |}
| live_1 sk ix p0 p1 a0 a1 s0 s1 :
    fd p0 <> -1 ->
    live {| sockfd := sk; i := ix; num := 1; pfd := [p0; p1];
            addr := [Some a0; a1]; slen := [s0; s1] |}
| live_2 sk ix p0 p1 a0 a1 s0 s1 :
    fd p0 <> -1 -> fd p1 <> -1 ->
    live {| sockfd := sk; i := ix; num := 2; pfd := [p0; p1];
            addr := [Some a0; Some a1]; slen := [s0; s1] |}.

(** The [connect] targets of the entries from [i] up to [num]. *)
Definition target_of (a : option addrinfo) (len : Z) : list (Z * Z) :=
  match a with Some a => [(ai_addr a, len)] | None => [] end.

Definition targets (fr : Frame) : list (Z * Z) :=
  concat (zip_with target_of
            (drop (Z.to_nat (i fr)) (take (Z.to_nat (num fr)) (addr fr)))
            (drop (Z.to_nat (i fr)) (take (Z.to_nat (num fr)) (slen fr)))).

(** The first candidate of a family. *)
Definition first_of (family : Z) (ai : list addrinfo) : option addrinfo :=
  find (fun a => ai_family a =? family) ai.

(** The plan, in the words of the specification: one socket for the first
    IPv6 candidate of the list, then one for the first IPv4 candidate, each
    connected to its candidate's address, IPv6 first.  The code's calls are
    compared with it. *)
Definition planned_sockets (ai : list addrinfo) : list (Z * Z * Z) :=
  match first_of AF_INET6 ai with
  | Some a => [(AF_INET6, ai_socktype a, ai_protocol a)]
  | None => []
  end
  ++ match first_of AF_INET ai with
     | Some a => [(AF_INET, ai_socktype a, ai_protocol a)]
     | None => []
     end.

Definition planned_targets (ai : list addrinfo) : list (Z * Z) :=
  target_of (first_of AF_INET6 ai) sizeof_sockaddr_in6
  ++ target_of (first_of AF_INET ai) sizeof_sockaddr_in.

(** The run found a winner: its last call declares connected the descriptor
    of the entry [i] points at, which is a live one, and no earlier call
    declared anything connected. *)
Definition won (fr : Frame) (evs : list event) : Prop :=
  0 <= i fr < num fr
  /\ exists evs0 ev p,
      evs = evs0 ++ [ev] /\ wins ev = Some (fd p)
      /\ load (pfd fr) (i fr) = Some p /\ quiet evs0.

(** The [connect] targets among a list of calls. *)
Definition connects (evs : list event) : list (Z * Z) :=
  map connect_target (filter (fun ev => is_connect ev = true) evs).

(** The arguments of the [socket] calls among a list of calls. *)
Definition sockets (evs : list event) : list (Z * Z * Z) :=
  map socket_args (filter (fun ev => is_socket ev = true) evs).

Definition poll_free (evs : list event) : Prop :=
  Forall (fun ev => is_poll ev = false) evs.

(** The calls follow the plan for the candidate list. *)
Definition planned (ai : list addrinfo) (evs : list event) : Prop :=
  sockets evs = planned_sockets ai /\ sublist (connects evs) (planned_targets ai).

(** A winner declared by [connect] was found before any wait. *)
Definition instant (evs : list event) : Prop :=
  forall evs0 ev, evs = evs0 ++ [ev] -> is_connect ev = true -> poll_free evs.

(** How a run that found the winner [s] ends, given the calls [post] made
    after the winner was found: with [s] if the switch back to blocking mode
    succeeded, and otherwise with -1 and [s] closed. *)
Definition handed_over (s r : Z) (post : list event) : Prop :=
  ((exists fl, In (EvSetfl s fl 0) post) /\ r = s)
  \/ (~ (exists fl, In (EvSetfl s fl 0) post) /\ r = -1 /\ In (EvClose s) post).

(** ** Reading the calls of the listening side *)

(** The calls made between two worlds of one run. *)
Definition calls_since (w w' : World) : list event :=
  drop (length (trace w)) (trace w').

(** The candidate of a family, in the words of the specification: among the
    first two entries of the list, the last one whose [ai_family] is
    [family].  The slots of [net_bind] are compared with it. *)
Definition bind_candidate (family : Z) (ai : list addrinfo) : option addrinfo :=
  find (fun c => ai_family c =? family) (rev (take 2 ai)).

(** The [socket] call expected for the candidate of a family, if there is
    one. *)
Definition family_socket (family : Z) (c : option addrinfo) : list (Z * Z * Z) :=
  match c with
  | Some c => [(family, ai_socktype c, ai_protocol c)]
  | None => []
  end.

(** The descriptors [socket] handed out (a negative result is a failure),
    and the descriptors given to [close]. *)
Definition opened (evs : list event) : list Z :=
  omap (fun ev => match ev with
                  | EvSocket _ _ _ r => if 0 <=? r then Some r else None
                  | _ => None
                  end) evs.

Definition closed (evs : list event) : list Z :=
  omap (fun ev => match ev with EvClose s => Some s | _ => None end) evs.

(** The candidate list cut down to the first candidate of each family. *)
Definition first_candidates (ai : list addrinfo) : list addrinfo :=
  option_list (first_of AF_INET6 ai) ++ option_list (first_of AF_INET ai).

(** ** Reading the calls of the connecting side *)

(** The descriptors [net_connect]'s [socket] calls handed out: it keeps
    every result other than -1. *)
Definition created (evs : list event) : list Z :=
  omap (fun ev => match ev with
                  | EvSocket _ _ _ r => if r =? -1 then None else Some r
                  | _ => None
                  end) evs.

(** An entry given to [poll]: armed for writability, on a descriptor of
    [C]. *)
Definition polled_entry (C : list Z) (p : pollfd) : Prop :=
  events p = POLLOUT /\ In (fd p) C.

(** A call that stays within the descriptors [C]: [connect], [getsockopt]
    and [close] on a descriptor of [C] only; [poll] on one or two armed
    entries of [C]; never [setsockopt], [bind] or [listen]. *)
Definition safe (C : list Z) (ev : event) : Prop :=
  match ev with
  | EvSocket _ _ _ _ | EvGetfl _ _ | EvSetfl _ _ _ => True
  | EvConnect s _ _ _ | EvGetsockopt s _ _ | EvClose s => In s C
  | EvPoll fds _ =>
      fds <> [] /\ (length fds <= 2)%nat /\ Forall (polled_entry C) fds
  | EvSetsockopt _ _ | EvBind _ _ _ _ | EvListen _ _ _ => False
  end.

(** The safe calls of the race proper: no [socket], no [close]. *)
Definition racing (C : list Z) (ev : event) : Prop :=
  match ev with
  | EvSocket _ _ _ _ | EvClose _ => False
  | _ => safe C ev
  end.

(** The safe calls of the two labels: [fcntl] and [close]. *)
Definition closing (C : list Z) (ev : event) : Prop :=
  match ev with
  | EvGetfl _ _ | EvSetfl _ _ _ => True
  | EvClose s => In s C
  | _ => False
  end.

(** The first [num] entries hold descriptors of [C] and, when [armed], wait
    for writability. *)
Inductive held (C : list Z) (armed : bool) : Frame -> Prop :=
| held_0 sk ix p0 p1 a0 a1 s0 s1 :
    held C armed {| sockfd := sk; i := ix; num := 0; pfd := [p0; p1];
                    addr := [a0; a1]; slen := [s0; s1] |}
| held_1 sk ix p0 p1 a0 a1 s0 s1 :
    In (fd p0) C -> (if armed then events p0 = POLLOUT else True) ->
    held C armed {| sockfd := sk; i := ix; num := 1; pfd := [p0; p1];
                    addr := [a0; a1]; slen := [s0; s1] |}
| held_2 sk ix p0 p1 a0 a1 s0 s1 :
    In (fd p0) C -> In (fd p1) C ->
    (if armed then events p0 = POLLOUT /\ events p1 = POLLOUT else True) ->
    held C armed {| sockfd := sk; i := ix; num := 2; pfd := [p0; p1];
                    addr := [a0; a1]; slen := [s0; s1] |}.

(** Every [connect] among [evs] comes right after the two calls by which
    [set_nonblock] switched the same descriptor to non-blocking mode with
    success; [pre] is what was called before [evs]. *)
Fixpoint guarded (pre evs : list event) : Prop :=
  match evs with
  | [] => True
  | ev :: evs' =>
      match ev with
      | EvConnect s _ _ _ =>
          exists pre' flags,
            pre = pre' ++ [EvGetfl s flags; EvSetfl s (Z.lor flags O_NONBLOCK) 0]
      | _ => True
      end
      /\ guarded (pre ++ [ev]) evs'
  end.

(** Both sockets are created; the IPv6 connection is instant. *)
Definition script_instant : list reply :=
  [ ok 3; ok 4; ok 2; ok 0; ok 0; ok 2050; ok 0; ok 0 ].

(** * Properties *)

(** ** The listen socket factory *)

(** C5, as stated, fails: when enabling address reuse fails and binding and
    listening succeed, the factory returns the socket and closes nothing. *)
Lemma make_listen_fd_ignores_setsockopt_failure :
  make_listen_fd (scripted script_no_reuse) (v4 400) boot
  = (3, {| errno := ENOPROTOOPT;
           trace := [EvSocket AF_INET SOCK_STREAM 0 3; EvSetsockopt 3 (-1);
                     EvBind 3 400 sizeof_sockaddr_in 0; EvListen 3 5 0] |}).
Proof. vm_compute. reflexivity. Qed.

(** C5, amended: once the socket exists, a failing [bind], and a failing
    [listen] on a connection-oriented socket, close the socket and return
    -1 with [errno] as the failing call left it; the result of enabling
    address reuse is not looked at. *)
Theorem make_listen_fd_failure_closes (os : OS) (a : addrinfo) (w : World) :
  let '(s, w1) := sys_socket os (ai_family a) (ai_socktype a) (ai_protocol a) w in
  let '(_, w2) := sys_setsockopt os s w1 in
  let '(rb, w3) := sys_bind os s (ai_addr a) (ai_addrlen a) w2 in
  let '(rl, w4) := sys_listen os s 5 w3 in
  0 <= s ->
  (rb <> 0 ->
   exists w', make_listen_fd os a w = (-1, w')
              /\ errno w' = errno w3 /\ trace w' = trace w3 ++ [EvClose s])
  /\ (rb = 0 -> should_listen a = true -> rl <> 0 ->
      exists w', make_listen_fd os a w = (-1, w')
                 /\ errno w' = errno w4 /\ trace w' = trace w4 ++ [EvClose s])
  /\ (rb = 0 -> (should_listen a = true -> rl = 0) ->
      make_listen_fd os a w = (s, if should_listen a then w4 else w3)).
Proof.
  unfold make_listen_fd, listen_fail.
  destruct (sys_socket os _ _ _ w) as [s w1].
  destruct (sys_setsockopt os s w1) as [rs w2].
  destruct (sys_bind os s _ _ w2) as [rb w3].
  destruct (sys_listen os s 5 w3) as [rl w4] eqn:Hl.
  intros Hs.
  assert (Hneg : (s <? 0) = false) by (apply Z.ltb_ge; lia).
  rewrite Hneg.
  repeat split.
  - intros Hrb. apply Z.eqb_neq in Hrb. rewrite Hrb. cbn [negb].
    unfold sys_close. destruct (os_close os w3 s) as [rc e].
    eexists. split; [reflexivity|]. split; reflexivity.
  - intros Hrb Hsl Hrl. subst rb. rewrite Hsl. cbn [Z.eqb negb].
    apply Z.eqb_neq in Hrl. rewrite Hrl. cbn [negb].
    unfold sys_close. destruct (os_close os w4 s) as [rc e].
    eexists. split; [reflexivity|]. split; reflexivity.
  - intros Hrb Hrl. subst rb. cbn [Z.eqb negb].
    destruct (should_listen a); [|reflexivity].
    rewrite (Hrl eq_refl). reflexivity.
Qed.

Lemma make_listen_fd_failure_closes_witness :
  exists w', make_listen_fd (scripted [ok 3; ok 0; failing 98]) (v4 400) boot = (-1, w')
             /\ errno w' = 98.
Proof.
  pose proof (make_listen_fd_failure_closes
                (scripted [ok 3; ok 0; failing 98]) (v4 400) boot) as H.
  vm_compute in H.
  destruct (H ltac:(discriminate)) as [Hb _].
  destruct (Hb ltac:(discriminate)) as [w' [E [He _]]].
  exists w'. split; [exact E | exact He].
Defined.

(** ** Two-element arrays and 32-bit counters *)

Section Arrays.
Context {A : Type}.
Implicit Types (x y v : A).

Lemma load2_0 x y : load [x; y] 0 = Some x.
Proof. reflexivity. Qed.
Lemma load2_1 x y : load [x; y] 1 = Some y.
Proof. reflexivity. Qed.
Lemma load2_wrapped x y : load [x; y] (u32 (0 - 1)) = None.
Proof. reflexivity. Qed.
Lemma load2_2 x y : load [x; y] 2 = None.
Proof. reflexivity. Qed.
Lemma store2_0 x y v : store [x; y] 0 v = Some [v; y].
Proof. reflexivity. Qed.
Lemma store2_1 x y v : store [x; y] 1 v = Some [x; v].
Proof. reflexivity. Qed.
Lemma memmove2_0_1 x y : memmove [x; y] 0 (0 + 1) (u32 (2 - 0 - 1)) = Some [y; y].
Proof. reflexivity. Qed.
Lemma memmove2_0_0 x y : memmove [x; y] 0 (0 + 1) (u32 (1 - 0 - 1)) = Some [x; y].
Proof. reflexivity. Qed.
Lemma memmove2_1_0 x y : memmove [x; y] 1 (1 + 1) (u32 (2 - 1 - 1)) = Some [x; y].
Proof. reflexivity. Qed.
End Arrays.

Lemma to_nat_0 : Z.to_nat 0 = 0%nat.
Proof. reflexivity. Qed.
Lemma to_nat_1 : Z.to_nat 1 = 1%nat.
Proof. reflexivity. Qed.
Lemma to_nat_2 : Z.to_nat 2 = 2%nat.
Proof. reflexivity. Qed.
Lemma to_nat_0_0 : Z.to_nat (0 - 0) = 0%nat.
Proof. reflexivity. Qed.
Lemma to_nat_1_0 : Z.to_nat (1 - 0) = 1%nat.
Proof. reflexivity. Qed.
Lemma to_nat_2_0 : Z.to_nat (2 - 0) = 2%nat.
Proof. reflexivity. Qed.

Lemma u32_0_plus_1 : u32 (0 + 1) = 1.
Proof. reflexivity. Qed.
Lemma u32_1_plus_1 : u32 (1 + 1) = 2.
Proof. reflexivity. Qed.
Lemma u32_1_minus_1 : u32 (1 - 1) = 0.
Proof. reflexivity. Qed.
Lemma u32_2_minus_1 : u32 (2 - 1) = 1.
Proof. reflexivity. Qed.
Lemma u32_wrapped_plus_1 : u32 (u32 (0 - 1) + 1) = 0.
Proof. reflexivity. Qed.

Create Rewrite HintDb arr.
#[local] Hint Rewrite @load2_0 @load2_1 @load2_wrapped @load2_2 @store2_0 @store2_1
  @memmove2_0_1 @memmove2_0_0 @memmove2_1_0
  u32_0_plus_1 u32_1_plus_1 u32_1_minus_1 u32_2_minus_1 u32_wrapped_plus_1
  to_nat_0 to_nat_1 to_nat_2 to_nat_0_0 to_nat_1_0 to_nat_2_0 : arr.

(** ** The dual-stack binder *)

Lemma geb_true (z : Z) : 0 <= z -> (z >=? 0) = true.
Proof. intros H. apply Z.geb_le. lia. Qed.

Lemma geb_false (z : Z) : ~ 0 <= z -> (z >=? 0) = false.
Proof. intros H. rewrite Z.geb_leb. apply Z.leb_gt. lia. Qed.

(** Decide the tests [r >= 0] of the goal from the hypotheses, then run the
    stores into the two-element array. *)
Ltac geb_cases :=
  repeat match goal with
         | H : 0 <= ?r |- _ => rewrite (geb_true r H); clear H
         | H : ~ 0 <= ?r |- _ => rewrite (geb_false r H); clear H
         end;
  autorewrite with arr; cbn beta iota.

(** The run of [net_bind] on a non-empty list, in terms of the two runs of
    the factory. *)
Lemma net_bind_run (os : OS) (a : addrinfo) (next : list addrinfo)
      (fds : list Z) (w : World) :
  length fds = 2%nat ->
  let '(ipv4, ipv6) := bind_slots a next in
  let r6 := match ipv6 with Some c => make_listen_fd os c w | None => (-1, w) end in
  let r4 := match ipv4 with
            | Some c => make_listen_fd os c (snd r6)
            | None => (-1, snd r6)
            end in
  let got := filter (fun s => 0 <= s) [fst r6; fst r4] in
  exists fds',
    net_bind os (a :: next) fds w
    = Ret (match got with [] => -1 | _ => Z.of_nat (length got) end) fds' (snd r4)
    /\ take (length got) fds' = got.
Proof.
  intros Hlen.
  destruct fds as [|x [|y [|z fds]]]; try discriminate Hlen.
  unfold net_bind.
  destruct (bind_slots a next) as [ipv4 ipv6]. cbv zeta.
  rewrite !filter_cons, filter_nil.
  destruct ipv6 as [c6|]; destruct ipv4 as [c4|]; cbn [bind_slot snd fst];
    repeat match goal with
           | |- context [make_listen_fd os ?c ?w0] =>
               let r := fresh "r" in
               let w' := fresh "w" in
               destruct (make_listen_fd os c w0) as [r w']; cbn [snd fst];
               destruct (decide (0 <= r)); geb_cases
           end;
    try (destruct (decide (0 <= -1)) as [H|H]; [lia|]);
    eexists; split; reflexivity.
Qed.

(** C10: [net_bind] reads the first entry before anything else, so the NULL
    list is undefined behaviour; on a non-empty list, with the caller's two
    cells for [fds], the call returns, and it looks at no entry beyond the
    second. *)
Theorem net_bind_reads_two_entries (os : OS) (fds : list Z) (w : World) :
  length fds = 2%nat ->
  net_bind os [] fds w = Undef w
  /\ (forall a next, exists r fds' w', net_bind os (a :: next) fds w = Ret r fds' w')
  /\ (forall a b rest, net_bind os (a :: b :: rest) fds w = net_bind os [a; b] fds w).
Proof.
  intros Hlen. split; [reflexivity|]. split.
  - intros a next.
    pose proof (net_bind_run os a next fds w Hlen) as H.
    destruct (bind_slots a next) as [ipv4 ipv6]. cbv zeta in H.
    destruct H as [fds' [H _]]. eauto.
  - reflexivity.
Qed.

Lemma net_bind_reads_two_entries_witness :
  net_bind (scripted []) [] [0; 0] boot = Undef boot
  /\ (forall a next, exists r fds' w',
         net_bind (scripted []) (a :: next) [0; 0] boot = Ret r fds' w')
  /\ (forall a b rest,
         net_bind (scripted []) (a :: b :: rest) [0; 0] boot
         = net_bind (scripted []) [a; b] [0; 0] boot).
Proof. exact (net_bind_reads_two_entries (scripted []) [0; 0] boot eq_refl). Defined.

(** ** The connection racer on concrete runs *)

(** C1: the IPv6 connection is in progress, the IPv4 connection is refused
    at once and its entry is removed from the arrays; IPv6 then wins.  The
    IPv4 descriptor 4 is never closed. *)
Theorem net_connect_leaks_dropped_socket :
  let o := net_connect (scripted script_leak) 1 [v6 600; v4 400] zeroed boot in
  returned o = Some 3
  /\ trace (final_world o)
     = [EvSocket AF_INET6 SOCK_STREAM 0 3; EvSocket AF_INET SOCK_STREAM 0 4;
        EvGetfl 3 2; EvSetfl 3 2050 0; EvConnect 3 600 sizeof_sockaddr_in6 (-1);
        EvGetfl 4 2; EvSetfl 4 2050 0; EvConnect 4 400 sizeof_sockaddr_in (-1);
        EvPoll [{| fd := 3; events := POLLOUT; revents := 0 |}] 1;
        EvGetsockopt 3 0 0; EvGetfl 3 2050; EvSetfl 3 2 0].
Proof. vm_compute. split; reflexivity. Qed.

(** C2: both connections are in progress; the first wait reports the IPv6
    socket, whose pending error is connection refused; the second wait
    fails.  Control falls from the loop into [got_one] with [i = 1], where
    the stale copy of the IPv4 entry still sits: the pending descriptor 4 is
    switched to blocking mode and returned, and nothing is closed. *)
Theorem net_connect_returns_socket_after_poll_failure :
  let o := net_connect (scripted script_interrupted) 2 [v6 600; v4 400] zeroed boot in
  returned o = Some 4
  /\ trace (final_world o)
     = [EvSocket AF_INET6 SOCK_STREAM 0 3; EvSocket AF_INET SOCK_STREAM 0 4;
        EvGetfl 3 2; EvSetfl 3 2050 0; EvConnect 3 600 sizeof_sockaddr_in6 (-1);
        EvGetfl 4 2; EvSetfl 4 2050 0; EvConnect 4 400 sizeof_sockaddr_in (-1);
        EvPoll [{| fd := 3; events := POLLOUT; revents := 0 |};
                {| fd := 4; events := POLLOUT; revents := 0 |}] 1;
        EvGetsockopt 3 0 ECONNREFUSED;
        EvPoll [{| fd := 4; events := POLLOUT; revents := 0 |}] (-1);
        EvGetfl 4 2050; EvSetfl 4 2 0].
Proof. vm_compute. split; reflexivity. Qed.

(** C3: a single IPv4 candidate whose connection is refused at once.  Its
    entry, at index 0, is removed and [i] wraps to 2^32 - 1; the assignment
    to [pfd[i].events] that follows is outside the array. *)
Theorem net_connect_indexes_outside_after_drop :
  net_connect (scripted script_refused) 0 [v4 400] zeroed boot
  = Undef {| errno := ECONNREFUSED;
             trace := [EvSocket AF_INET SOCK_STREAM 0 3; EvGetfl 3 2;
                       EvSetfl 3 2050 0;
                       EvConnect 3 400 sizeof_sockaddr_in (-1)] |}.
Proof. vm_compute. reflexivity. Qed.

(** C4: with no candidate no socket is created, but control falls into
    [got_one], which reads [pfd[0].fd] off the stack; when that happens to
    be an open descriptor (here 0) it is returned. *)
Theorem net_connect_empty_returns_stack_garbage :
  let o := net_connect (scripted script_empty) 0 [] zeroed boot in
  returned o = Some 0
  /\ trace (final_world o) = [EvGetfl 0 2; EvSetfl 0 2 0].
Proof. vm_compute. split; reflexivity. Qed.


(** ** The connection racer in general *)

(** *** The scan keeps the first candidate of each family *)

Lemma scan_first (ai : list addrinfo) (ipv4 ipv6 : option addrinfo) :
  scan ai ipv4 ipv6
  = (match ipv4 with Some _ => ipv4 | None => first_of AF_INET ai end,
     match ipv6 with Some _ => ipv6 | None => first_of AF_INET6 ai end).
Proof.
  revert ipv4 ipv6. induction ai as [|a ai IH]; intros ipv4 ipv6.
  - destruct ipv4, ipv6; reflexivity.
  - cbn [scan first_of find].
    destruct (ai_family a =? AF_INET) eqn:E4.
    + assert (E6 : (ai_family a =? AF_INET6) = false).
      { apply Z.eqb_eq in E4. rewrite E4. reflexivity. }
      rewrite E6, IH. destruct ipv4, ipv6; reflexivity.
    + destruct (ai_family a =? AF_INET6) eqn:E6; rewrite IH;
        destruct ipv4, ipv6; reflexivity.
Qed.

(** *** What the system calls add to the history *)

Lemma sys_socket_trace os f t p w :
  trace (snd (sys_socket os f t p w))
  = trace w ++ [EvSocket f t p (fst (sys_socket os f t p w))].
Proof. unfold sys_socket. destruct (os_socket os w f t p). reflexivity. Qed.

Lemma sys_connect_trace os s sa len w :
  trace (snd (sys_connect os s sa len w))
  = trace w ++ [EvConnect s sa len (fst (sys_connect os s sa len w))].
Proof. unfold sys_connect. destruct (os_connect os w s sa len). reflexivity. Qed.

Lemma sys_close_trace os s w :
  trace (snd (sys_close os s w)) = trace w ++ [EvClose s].
Proof. unfold sys_close. destruct (os_close os w s). reflexivity. Qed.

Lemma sys_poll_trace os fds w :
  trace (snd (sys_poll os fds w))
  = trace w ++ [EvPoll fds (fst (fst (sys_poll os fds w)))].
Proof. unfold sys_poll. destruct (os_poll os w fds) as [[r revs] e]. reflexivity. Qed.

Lemma sys_getsockopt_trace os s w :
  trace (snd (sys_getsockopt os s w))
  = trace w ++ [EvGetsockopt s (fst (fst (sys_getsockopt os s w)))
                             (snd (fst (sys_getsockopt os s w)))].
Proof.
  unfold sys_getsockopt. destruct (os_getsockopt os w s) as [[r err] e]. reflexivity.
Qed.

(** [set_nonblock] makes one or two [fcntl] calls on its descriptor, and
    reports success exactly when [F_SETFL] was reached and returned 0. *)
Lemma set_nonblock_trace os s b w :
  exists evs,
    trace (snd (set_nonblock os s b w)) = trace w ++ evs
    /\ Forall (fun ev => is_fcntl ev = true) evs
    /\ (fst (set_nonblock os s b w) = true <-> exists fl, In (EvSetfl s fl 0) evs).
Proof.
  unfold set_nonblock, sys_getfl, sys_setfl.
  destruct (os_getfl os w s) as [flags e1].
  destruct (flags =? -1) eqn:Ef.
  - exists [EvGetfl s flags]. cbn. repeat split.
    + repeat constructor.
    + discriminate.
    + intros [fl [H|[]]]. discriminate.
  - match goal with
    | |- context [os_setfl os ?w1 s ?fl] =>
        destruct (os_setfl os w1 s fl) as [r e2] eqn:Es;
        exists [EvGetfl s flags; EvSetfl s fl r]
    end.
    cbn. rewrite <- app_assoc. repeat split.
    + repeat constructor.
    + intros Hr. apply Z.eqb_eq in Hr. subst r. eexists. right. left. reflexivity.
    + intros [fl [H|[H|[]]]]; [discriminate|]. inversion H. reflexivity.
Qed.

(** *** Running the monad *)

Lemma enter_cells (g : Stack) :
  enter g = {| sockfd := -1; i := 0; num := 0;
               pfd := [stk_pfd g 0%nat; stk_pfd g 1%nat];
               addr := [None; None];
               slen := [stk_slen g 0%nat; stk_slen g 1%nat] |}.
Proof. reflexivity. Qed.

(** Tests on literals. *)
Ltac literal_tests :=
  repeat match goal with
         | |- context [if ?b then _ else _] =>
             let v := eval vm_compute in b in
             match v with
             | true => change b with true
             | false => change b with false
             end;
             cbv beta iota
         end.

Ltac run :=
  repeat (progress
            (cbv beta iota zeta delta
                 [bind ret get modify undef spin sys get_errno put_errno defined
                  update_pfd remove_fd for_loop
                  set_sockfd set_i set_num set_pfd set_addr set_slen];
             cbn [sockfd i num pfd addr slen fd events revents iterate
                  set_fd set_events set_revents negb andb orb target_of
                  firstn skipn app store_revents hd tl length];
             autorewrite with arr;
             literal_tests)).

(** Sublists of short explicit lists. *)
Ltac sublist_cells :=
  vm_compute;
  repeat first [ apply sublist_nil | apply sublist_skip | apply sublist_cons ].

(** The history of a leaf of a run, from the equations [call] left. *)
Ltac history :=
  cbn [set_errno trace];
  repeat match goal with
         | T : trace ?w = _ |- context [trace ?w] => rewrite T
         end;
  rewrite <- ?app_assoc;
  first [ reflexivity | symmetry; apply app_nil_r | idtac ].

(** Name the result of the next system call and what it adds to the
    history. *)
Ltac call :=
  match goal with
  | |- context [sys_socket ?os ?f ?t ?p ?w] =>
      let T := fresh "T" in
      pose proof (sys_socket_trace os f t p w) as T;
      destruct (sys_socket os f t p w) as [? ?]; cbn [fst snd set_errno trace] in T
  | |- context [sys_connect ?os ?s ?sa ?len ?w] =>
      let T := fresh "T" in
      pose proof (sys_connect_trace os s sa len w) as T;
      destruct (sys_connect os s sa len w) as [? ?]; cbn [fst snd set_errno trace] in T
  | |- context [sys_close ?os ?s ?w] =>
      let T := fresh "T" in
      pose proof (sys_close_trace os s w) as T;
      destruct (sys_close os s w) as [? ?]; cbn [fst snd set_errno trace] in T
  | |- context [sys_poll ?os ?fds ?w] =>
      let T := fresh "T" in
      pose proof (sys_poll_trace os fds w) as T;
      destruct (sys_poll os fds w) as [[? ?] ?]; cbn [fst snd set_errno trace] in T
  | |- context [sys_getsockopt ?os ?s ?w] =>
      let T := fresh "T" in
      pose proof (sys_getsockopt_trace os s w) as T;
      destruct (sys_getsockopt os s w) as [[? ?] ?]; cbn [fst snd set_errno trace] in T
  | |- context [set_nonblock ?os ?s ?b ?w] =>
      let T := fresh "T" in
      let evs := fresh "evs" in
      let K := fresh "K" in
      let R := fresh "R" in
      destruct (set_nonblock_trace os s b w) as [evs [T [K R]]];
      destruct (set_nonblock os s b w) as [[|] ?]; cbn [fst snd set_errno trace] in T, R
  end.

(** *** The sockets *)

Lemma open_sockets_run os (ipv4 ipv6 : option addrinfo) g w :
  exists fr w' evs,
    open_sockets os ipv4 ipv6 (enter g) w = Ret tt fr w'
    /\ live fr /\ sockfd fr = -1
    /\ trace w' = trace w ++ evs
    /\ Forall (fun ev => is_socket ev = true) evs
    /\ map socket_args evs
       = match ipv6 with
         | Some a => [(AF_INET6, ai_socktype a, ai_protocol a)]
         | None => []
         end
         ++ match ipv4 with
            | Some a => [(AF_INET, ai_socktype a, ai_protocol a)]
            | None => []
            end
    /\ sublist (targets (set_i 0 fr))
               (target_of ipv6 sizeof_sockaddr_in6 ++ target_of ipv4 sizeof_sockaddr_in).
Proof.
  rewrite enter_cells. unfold open_sockets, open_slot.
  destruct ipv6 as [a6|]; destruct ipv4 as [a4|]; run.
  all: repeat (call; run;
               match goal with
               | |- context [?s =? -1] => destruct (s =? -1) eqn:?
               end; run).
  all: do 3 eexists; (split; [reflexivity|]).
  all: repeat match goal with
              | H : (_ =? -1) = false |- _ => apply Z.eqb_neq in H
              end.
  all: split; [constructor; assumption|].
  all: split; [reflexivity|].
  all: split; [history; try (rewrite app_nil_r; reflexivity)|].
  all: split; [repeat constructor|].
  all: split; [reflexivity|].
  all: sublist_cells.
Qed.

(** *** Composing runs *)

Lemma sat_bind {A B : Type} (m : M A) (k : A -> M B) fr w
      (Q : A -> Frame -> list event -> Prop) (U S : list event -> Prop)
      (Q' : B -> Frame -> list event -> Prop) (U' S' : list event -> Prop) :
  sat w (m fr w) Q U S ->
  (forall a fr1 w1 evs1,
      Q a fr1 evs1 -> trace w1 = trace w ++ evs1 ->
      sat w1 (k a fr1 w1)
          (fun b fr2 evs2 => Q' b fr2 (evs1 ++ evs2))
          (fun evs2 => U' (evs1 ++ evs2))
          (fun evs2 => S' (evs1 ++ evs2))) ->
  (forall evs, U evs -> U' evs) ->
  (forall evs, S evs -> S' evs) ->
  sat w (bind m k fr w) Q' U' S'.
Proof.
  intros [evs1 [T1 H1]] Hk HU HS. unfold bind.
  destruct (m fr w) as [a fr1 w1|w1|w1]; cbn [final_world] in *.
  - destruct (Hk a fr1 w1 evs1 H1 T1) as [evs2 [T2 H2]].
    exists (evs1 ++ evs2). split.
    + rewrite T2, T1, app_assoc. reflexivity.
    + destruct (k a fr1 w1); assumption.
  - exists evs1. split; [assumption | apply HU; assumption].
  - exists evs1. split; [assumption | apply HS; assumption].
Qed.

Lemma sat_weaken {A : Type} w (o : outcome Frame A)
      (Q Q' : A -> Frame -> list event -> Prop) (U U' S S' : list event -> Prop) :
  sat w o Q U S ->
  (forall a fr evs, Q a fr evs -> Q' a fr evs) ->
  (forall evs, U evs -> U' evs) ->
  (forall evs, S evs -> S' evs) ->
  sat w o Q' U' S'.
Proof.
  intros [evs [T H]] HQ HU HS. exists evs. split; [assumption|].
  destruct o; auto.
Qed.

Lemma live_set_i v fr : live fr -> live (set_i v fr).
Proof. intros H. destruct H; constructor; assumption. Qed.

(** *** Facts about lists of calls *)

Lemma connects_app evs1 evs2 : connects (evs1 ++ evs2) = connects evs1 ++ connects evs2.
Proof. unfold connects. rewrite filter_app, map_app. reflexivity. Qed.

Lemma connects_connect s sa len r : connects [EvConnect s sa len r] = [(sa, len)].
Proof. reflexivity. Qed.

Lemma quiet_app evs1 evs2 : quiet evs1 -> quiet evs2 -> quiet (evs1 ++ evs2).
Proof. unfold quiet. intros. apply Forall_app. split; assumption. Qed.

Lemma quiet_nil : quiet [].
Proof. constructor. Qed.

Lemma fcntl_setup evs :
  Forall (fun ev => is_fcntl ev = true) evs -> Forall (fun ev => ev_setup ev = true) evs.
Proof.
  intros K. eapply Forall_impl; [exact K|]. intros ev H. unfold ev_setup. rewrite H. reflexivity.
Qed.

Lemma fcntl_finish evs :
  Forall (fun ev => is_fcntl ev = true) evs -> Forall (fun ev => ev_finish ev = true) evs.
Proof.
  intros K. eapply Forall_impl; [exact K|]. intros ev H. unfold ev_finish. rewrite H. reflexivity.
Qed.

Lemma fcntl_quiet evs : Forall (fun ev => is_fcntl ev = true) evs -> quiet evs.
Proof.
  intros K. eapply Forall_impl; [exact K|]. intros ev H. destruct ev; try discriminate; reflexivity.
Qed.

Lemma fcntl_connects evs : Forall (fun ev => is_fcntl ev = true) evs -> connects evs = [].
Proof.
  unfold connects. induction 1 as [|ev l Hev Hl IH]; [reflexivity|].
  rewrite filter_cons_False; [exact IH|].
  destruct ev; try discriminate Hev; cbn; discriminate.
Qed.

(** Evaluate [targets] on explicit cells. *)
Ltac eval_targets :=
  repeat match goal with
         | |- context [targets ?fr] =>
             let v := eval cbv [targets firstn skipn zip_with concat app
                                Z.to_nat Pos.to_nat Pos.iter_op Init.Nat.add
                                i num addr slen target_of] in (targets fr) in
             change (targets fr) with v
         end.

(** Close a leaf of a run: give its history, then its postcondition. *)
Ltac leaf :=
  unfold sat; cbn [final_world]; eexists; split; [history|]; cbn beta iota zeta;
  rewrite ?app_nil_r.

(** Run a loop-free piece of code down to its leaves, splitting on the
    results of the system calls and on the tests. *)
Ltac exec :=
  run;
  repeat (first [ call
                | match goal with
                  | |- context [if negb ?b then _ else _] => destruct b eqn:?
                  | |- context [if ?b then _ else _] => destruct b eqn:?
                  end ];
          run).

Lemma won_intro fr evs0 ev p :
  0 <= i fr < num fr -> wins ev = Some (fd p) -> load (pfd fr) (i fr) = Some p ->
  quiet evs0 -> won fr (evs0 ++ [ev]).
Proof. intros Hi Hw Hl Hq. split; [exact Hi|]. exists evs0, ev, p. auto. Qed.

(** Use the tests already decided. *)
Ltac decided :=
  repeat match goal with
         | H : (_ =? _) = _ |- _ => rewrite H
         end.

Ltac won_last :=
  match goal with
  | |- won ?fr [?e] => eapply (won_intro fr [] e)
  | |- won ?fr [?e1; ?e] => eapply (won_intro fr [e1] e)
  | |- won ?fr (?evs ++ [?e]) => eapply (won_intro fr evs e)
  end;
  [ cbn [i num]; lia
  | cbn [wins]; decided; reflexivity
  | cbn [i pfd]; autorewrite with arr; reflexivity
  | ].

(** The parts of a postcondition. *)
Ltac post :=
  repeat match goal with
         | |- _ /\ _ => split
         | |- Forall _ [] => constructor
         | |- Forall _ (_ ++ _) => apply Forall_app; split
         | |- Forall (fun ev => ev_setup ev = true) _ =>
             first [ apply fcntl_setup; assumption | repeat constructor ]
         | |- Forall (fun ev => ev_finish ev = true) _ =>
             first [ apply fcntl_finish; assumption | repeat constructor ]
         | |- Forall (fun ev => ev_wait ev = true) _ => repeat constructor
         | |- quiet (_ ++ _) => apply quiet_app
         | |- quiet [] => apply quiet_nil
         | |- quiet (_ :: _) =>
             unfold quiet; repeat constructor; cbn [wins]; decided;
             rewrite ?andb_false_r; reflexivity
         | |- quiet _ => apply fcntl_quiet; assumption
         | |- live _ =>
             constructor; cbn [fd set_fd set_events set_revents]; assumption
         | |- won _ _ => won_last
         | |- sublist _ _ =>
             rewrite ?connects_app, ?connects_connect;
             rewrite ?fcntl_connects by assumption;
             eval_targets; sublist_cells
         | |- @eq Frame _ _ => reflexivity
         | |- @eq Z _ _ => reflexivity
         | |- _ <= _ => lia
         | |- _ < _ => lia
         end.

(** *** Starting the connections *)

Lemma connect_body_spec os fr w :
  live fr -> sockfd fr = -1 -> 0 <= i fr < num fr ->
  sat w (connect_body os fr w)
      (fun c fr' evs =>
         Forall (fun ev => ev_setup ev = true) evs
         /\ match c with
            | Next =>
                let fr'' := set_i (u32 (i fr' + 1)) fr' in
                live fr' /\ sockfd fr' = -1
                /\ 0 <= i fr'' <= num fr''
                /\ num fr'' - i fr'' < num fr - i fr
                /\ quiet evs
                /\ sublist (connects evs ++ targets fr'') (targets fr)
            | GotOne =>
                fr' = fr /\ won fr evs /\ sublist (connects evs) (targets fr)
            | Out => False
            end)
      (fun evs =>
         Forall (fun ev => ev_setup ev = true) evs /\ quiet evs
         /\ sublist (connects evs) (targets fr))
      (fun _ => False).
Proof.
  intros Hlive Hsk Hi.
  destruct Hlive as [sk ix p0 p1 a0 a1 s0 s1 | sk ix p0 p1 a0 a1 s0 s1 Hp0
                    | sk ix p0 p1 a0 a1 s0 s1 Hp0 Hp1];
    cbn [i num sockfd] in Hi, Hsk; subst sk; [lia | |].
  - assert (ix = 0) by lia. subst ix.
    unfold connect_body. exec; leaf; run; post.
  - assert (Hix : ix = 0 \/ ix = 1) by lia.
    destruct Hix; subst ix; unfold connect_body; exec; leaf; run; post.
Qed.

Lemma iterate_unfold (n : nat) (body : M flow) fr w :
  iterate n body fr w
  = if i fr <? num fr then
      match n with
      | O => Spin w
      | S n' =>
          bind body
               (fun c => match c with
                         | Next => fun fr1 w1 =>
                                     iterate n' body (set_i (u32 (i fr1 + 1)) fr1) w1
                         | _ => ret c
                         end) fr w
      end
    else Ret Next fr w.
Proof.
  destruct n; cbn [iterate]; unfold bind at 1, get; destruct (i fr <? num fr);
    reflexivity.
Qed.

Lemma sat_ret {A : Type} w (a : A) fr
      (Q : A -> Frame -> list event -> Prop) (U S : list event -> Prop) :
  Q a fr [] -> sat w (Ret a fr w) Q U S.
Proof. intros H. exists []. split; [symmetry; apply app_nil_r | exact H]. Qed.

Lemma won_earlier evs1 evs2 fr : quiet evs1 -> won fr evs2 -> won fr (evs1 ++ evs2).
Proof.
  intros Hq [Hi [evs0 [ev [p [-> [Hw [Hl Hq0]]]]]]]. split; [exact Hi|].
  exists (evs1 ++ evs0), ev, p. rewrite app_assoc.
  repeat split; try assumption. apply quiet_app; assumption.
Qed.

Lemma start_loop_spec os n fr w :
  live fr -> sockfd fr = -1 -> 0 <= i fr <= num fr ->
  (Z.to_nat (num fr - i fr) <= n)%nat ->
  sat w (iterate n (connect_body os) fr w)
      (fun c fr' evs =>
         live fr' /\ sockfd fr' = -1
         /\ Forall (fun ev => ev_setup ev = true) evs
         /\ sublist (connects evs) (targets fr)
         /\ match c with
            | Next => quiet evs
            | GotOne => won fr' evs
            | Out => False
            end)
      (fun evs =>
         Forall (fun ev => ev_setup ev = true) evs /\ quiet evs
         /\ sublist (connects evs) (targets fr))
      (fun _ => False).
Proof.
  revert fr w. induction n as [|n IH]; intros fr w Hlive Hsk Hi Hn;
    rewrite iterate_unfold; destruct (i fr <? num fr) eqn:E.
  - apply Z.ltb_lt in E. lia.
  - apply sat_ret. repeat split; try assumption; try constructor.
    apply sublist_nil_l.
  - apply Z.ltb_lt in E.
    eapply sat_bind; [apply connect_body_spec; [assumption|assumption|lia] | | | ].
    + intros c fr1 w1 evs1 [Hs1 Hc] T1. destruct c.
      * cbv zeta in Hc. destruct Hc as (Hl1 & Hsk1 & Hi1 & Hm & Hq1 & Hsub).
        eapply sat_weaken;
          [apply IH;
           [apply live_set_i; assumption | exact Hsk1 | exact Hi1 | lia] | | | ];
          cbn beta.
        -- intros c2 fr2 evs2 (Hl2 & Hsk2 & Hs2 & Hsub2 & Hc2).
           repeat split; try assumption.
           ++ apply Forall_app. split; assumption.
           ++ rewrite connects_app. etrans; [|exact Hsub].
              apply sublist_app; [reflexivity | exact Hsub2].
           ++ destruct c2; [apply quiet_app; assumption
                           | apply won_earlier; assumption | exact Hc2].
           
        -- intros evs2 (Hs2 & Hq2 & Hsub2). repeat split.
           ++ apply Forall_app. split; assumption.
           ++ apply quiet_app; assumption.
           ++ rewrite connects_app. etrans; [|exact Hsub].
              apply sublist_app; [reflexivity | exact Hsub2].
        -- intros evs2 [].
      * destruct Hc as (-> & Hw & Hsub). apply sat_ret. rewrite app_nil_r.
        do 4 (split; [assumption|]). assumption.
      * destruct Hc.
    + cbn beta. intros evs H. exact H.
    + intros evs [].
  - apply sat_ret. repeat split; try assumption; try constructor.
    apply sublist_nil_l.
Qed.

(** *** Waiting *)

Lemma poll_inner_spec os fr w :
  live fr -> sockfd fr = -1 -> i fr = 0 ->
  sat w (for_loop (poll_body os) fr w)
      (fun c fr' evs =>
         live fr' /\ sockfd fr' = -1
         /\ Forall (fun ev => ev_wait ev = true) evs
         /\ match c with
            | GotOne => won fr' evs
            | _ => quiet evs
            end)
      (fun _ => False)
      (fun _ => False).
Proof.
  intros Hlive Hsk Hi.
  destruct Hlive as [sk ix p0 p1 a0 a1 s0 s1 | sk ix p0 p1 a0 a1 s0 s1 Hp0
                    | sk ix p0 p1 a0 a1 s0 s1 Hp0 Hp1];
    cbn [i num sockfd] in Hi, Hsk; subst sk ix; unfold poll_body.
  all: exec; leaf; run; post.
Qed.

Lemma poll_pfd_spec os fr w :
  live fr -> sockfd fr = -1 ->
  sat w (poll_pfd os fr w)
      (fun _ fr' evs =>
         live fr' /\ sockfd fr' = -1
         /\ Forall (fun ev => ev_wait ev = true) evs /\ quiet evs)
      (fun _ => False)
      (fun _ => False).
Proof.
  intros Hlive Hsk.
  destruct Hlive as [sk ix p0 p1 a0 a1 s0 s1 | sk ix p0 p1 a0 a1 s0 s1 Hp0
                    | sk ix p0 p1 a0 a1 s0 s1 Hp0 Hp1];
    cbn [sockfd] in Hsk; subst sk; unfold poll_pfd; exec; leaf; run; post.
Qed.

Lemma poll_loop_unfold os fuel fr w :
  poll_loop os fuel fr w
  = if num fr =? 0 then Ret Next fr w
    else match fuel with
         | O => Spin w
         | S fuel' =>
             bind (poll_pfd os)
                  (fun r =>
                     if r =? -1 then ret Next
                     else fun fr1 w1 =>
                            bind (for_loop (poll_body os))
                                 (fun c => match c with
                                           | Next => poll_loop os fuel'
                                           | _ => ret c
                                           end) (set_i 0 fr1) w1) fr w
         end.
Proof.
  destruct fuel; cbn [poll_loop]; unfold bind at 1, get; destruct (num fr =? 0);
    reflexivity.
Qed.

Lemma poll_loop_spec os fuel fr w :
  live fr -> sockfd fr = -1 ->
  sat w (poll_loop os fuel fr w)
      (fun c fr' evs =>
         live fr' /\ sockfd fr' = -1
         /\ Forall (fun ev => ev_wait ev = true) evs
         /\ match c with
            | GotOne => won fr' evs
            | _ => quiet evs
            end)
      (fun _ => False)
      (fun evs => Forall (fun ev => ev_wait ev = true) evs /\ quiet evs).
Proof.
  revert fr w. induction fuel as [|fuel IH]; intros fr w Hlive Hsk;
    rewrite poll_loop_unfold; destruct (num fr =? 0).
  - apply sat_ret. repeat split; try assumption; constructor.
  - exists []. split; [symmetry; apply app_nil_r|]. split; constructor.
  - apply sat_ret. repeat split; try assumption; constructor.
  - eapply sat_bind; [apply poll_pfd_spec; assumption | | | ]; cbn beta.
    + intros r fr1 w1 evs1 (Hl1 & Hsk1 & Hk1 & Hq1) T1.
      destruct (r =? -1).
      * apply sat_ret. rewrite app_nil_r. repeat split; assumption.
      * eapply sat_bind;
          [apply poll_inner_spec; [apply live_set_i; assumption | exact Hsk1 | reflexivity]
          | | | ]; cbn beta.
        -- intros c fr2 w2 evs2 (Hl2 & Hsk2 & Hk2 & Hc2) T2.
           destruct c.
           ++ eapply sat_weaken; [apply IH; assumption | | | ]; cbn beta.
              ** intros c3 fr3 evs3 (Hl3 & Hsk3 & Hk3 & Hc3).
                 split; [assumption|]. split; [assumption|].
                 split; [repeat (apply Forall_app; split); assumption|].
                 destruct c3; [repeat apply quiet_app; assumption
                              | repeat apply won_earlier; assumption
                              | repeat apply quiet_app; assumption].
              ** intros evs3 [].
              ** intros evs3 [Hk3 Hq3].
                 split; [repeat (apply Forall_app; split); assumption
                        | repeat apply quiet_app; assumption].
           ++ apply sat_ret. rewrite app_nil_r.
              split; [assumption|]. split; [assumption|].
              split; [apply Forall_app; split; assumption|].
              apply won_earlier; assumption.
           ++ apply sat_ret. rewrite app_nil_r.
              split; [assumption|]. split; [assumption|].
              split; [apply Forall_app; split; assumption|].
              apply quiet_app; assumption.
        -- intros evs2 [].
        -- intros evs2 [].
    + intros evs [].
    + intros evs [].
Qed.

(** *** Kinds of calls *)

Lemma sockets_app evs1 evs2 : sockets (evs1 ++ evs2) = sockets evs1 ++ sockets evs2.
Proof. unfold sockets. rewrite filter_app, map_app. reflexivity. Qed.

Lemma poll_free_app evs1 evs2 : poll_free evs1 -> poll_free evs2 -> poll_free (evs1 ++ evs2).
Proof. intros. apply Forall_app. split; assumption. Qed.

Lemma filter_none {A : Type} (P Q : A -> Prop) `{forall x, Decision (P x)} (l : list A) :
  (forall x, Q x -> ~ P x) -> Forall Q l -> filter P l = [].
Proof.
  intros HPQ. induction 1 as [|x l Hx Hl IH]; [reflexivity|].
  rewrite filter_cons_False; [exact IH | apply HPQ; exact Hx].
Qed.

Ltac by_kind := intros ev; destruct ev; cbn; congruence.

Lemma only_sockets evs :
  Forall (fun ev => is_socket ev = true) evs ->
  sockets evs = map socket_args evs /\ connects evs = [] /\ quiet evs /\ poll_free evs.
Proof.
  intros K. repeat split.
  - unfold sockets. f_equal. induction K as [|ev l Hev Hl IH]; [reflexivity|].
    rewrite filter_cons_True by exact Hev. f_equal. exact IH.
  - unfold connects. erewrite filter_none; [reflexivity | | exact K]. by_kind.
  - eapply Forall_impl; [exact K|]. by_kind.
  - eapply Forall_impl; [exact K|]. by_kind.
Qed.

Lemma only_setup evs :
  Forall (fun ev => ev_setup ev = true) evs -> sockets evs = [] /\ poll_free evs.
Proof.
  intros K. split.
  - unfold sockets. erewrite filter_none; [reflexivity | | exact K]. by_kind.
  - eapply Forall_impl; [exact K|]. by_kind.
Qed.

Lemma only_wait evs :
  Forall (fun ev => ev_wait ev = true) evs -> sockets evs = [] /\ connects evs = [].
Proof.
  intros K. split.
  - unfold sockets. erewrite filter_none; [reflexivity | | exact K]. by_kind.
  - unfold connects. erewrite filter_none; [reflexivity | | exact K]. by_kind.
Qed.

Lemma only_finish evs :
  Forall (fun ev => ev_finish ev = true) evs ->
  sockets evs = [] /\ connects evs = [] /\ quiet evs /\ poll_free evs.
Proof.
  intros K. repeat split.
  - unfold sockets. erewrite filter_none; [reflexivity | | exact K]. by_kind.
  - unfold connects. erewrite filter_none; [reflexivity | | exact K]. by_kind.
  - eapply Forall_impl; [exact K|]. by_kind.
  - eapply Forall_impl; [exact K|]. by_kind.
Qed.

(** *** The race *)

Lemma sat_shift {A : Type} w w0 evs0 (o : outcome Frame A)
      (Q : A -> Frame -> list event -> Prop) (U S : list event -> Prop) :
  trace w0 = trace w ++ evs0 ->
  sat w0 o (fun a fr evs => Q a fr (evs0 ++ evs))
      (fun evs => U (evs0 ++ evs)) (fun evs => S (evs0 ++ evs)) ->
  sat w o Q U S.
Proof.
  intros T0 [evs [T H]]. exists (evs0 ++ evs). split.
  - rewrite T, T0, app_assoc. reflexivity.
  - destruct o; exact H.
Qed.

Lemma live_num fr : live fr -> 0 <= num fr <= 2.
Proof. intros H. destruct H; cbn [num]; lia. Qed.

Lemma start_connecting_spec os fr w :
  live fr -> sockfd fr = -1 ->
  sat w (start_connecting os fr w)
      (fun c fr' evs =>
         live fr' /\ sockfd fr' = -1
         /\ Forall (fun ev => ev_setup ev = true) evs
         /\ sublist (connects evs) (targets (set_i 0 fr))
         /\ match c with
            | Next => quiet evs
            | GotOne => won fr' evs
            | Out => False
            end)
      (fun evs =>
         Forall (fun ev => ev_setup ev = true) evs /\ quiet evs
         /\ sublist (connects evs) (targets (set_i 0 fr)))
      (fun _ => False).
Proof.
  intros Hlive Hsk. pose proof (live_num fr Hlive) as Hn.
  change (start_connecting os fr w)
    with (iterate (Z.to_nat (num fr - 0)) (connect_body os) (set_i 0 fr) w).
  apply start_loop_spec.
  - apply live_set_i. exact Hlive.
  - exact Hsk.
  - cbn [i num set_i]. lia.
  - cbn [i num set_i]. lia.
Qed.

Lemma race_spec os fuel ai g w :
  sat w (race os fuel ai (enter g) w)
      (fun c fr evs =>
         planned ai evs /\ live fr /\ sockfd fr = -1
         /\ match c with
            | GotOne => won fr evs /\ instant evs
            | _ => quiet evs
            end)
      (fun evs => planned ai evs /\ quiet evs)
      (fun evs => planned ai evs /\ quiet evs).
Proof.
  unfold race. rewrite scan_first.
  destruct (open_sockets_run os (first_of AF_INET ai) (first_of AF_INET6 ai) g w)
    as (fr0 & w0 & evs0 & Hrun & Hlive & Hsk & T0 & Ksock & Hargs & Hsub).
  destruct (only_sockets evs0 Ksock) as (Hs0 & Hc0 & Hq0 & Hp0).
  unfold bind at 1. rewrite Hrun.
  apply (sat_shift w w0 evs0); [exact T0|].
  assert (Hplan : forall evs,
             sockets evs = [] -> sublist (connects evs) (targets (set_i 0 fr0)) ->
             planned ai (evs0 ++ evs)).
  { intros evs Hs Hc. split.
    - rewrite sockets_app, Hs, app_nil_r, Hs0. exact Hargs.
    - rewrite connects_app, Hc0. cbn [app]. etrans; [exact Hc | exact Hsub]. }
  eapply sat_bind; [apply start_connecting_spec; assumption | | | ]; cbn beta.
  - intros c fr1 w1 evs1 (Hl1 & Hsk1 & Hk1 & Hsub1 & Hc1) T1.
    destruct (only_setup evs1 Hk1) as [Hs1 Hp1].
    destruct c.
    + eapply sat_weaken; [apply poll_loop_spec; assumption | | | ]; cbn beta.
      * intros c2 fr2 evs2 (Hl2 & Hsk2 & Hk2 & Hc2).
        destruct (only_wait evs2 Hk2) as [Hs2 Hcc2].
        split.
        { apply Hplan.
          - rewrite sockets_app, Hs1, Hs2. reflexivity.
          - rewrite connects_app, Hcc2, app_nil_r. exact Hsub1. }
        split; [assumption|]. split; [assumption|].
        destruct c2.
        -- repeat apply quiet_app; assumption.
        -- split; [repeat apply won_earlier; assumption|].
           intros evsa ev Heq Hconn. exfalso.
           destruct Hc2 as [_ (evsb & ev' & p & -> & Hw & _)].
           rewrite !app_assoc in Heq. apply app_inj_tail in Heq.
           destruct Heq as [_ <-].
           apply Forall_app in Hk2. destruct Hk2 as [_ Hk2].
           inversion Hk2 as [|? ? Hev]. subst.
           destruct ev'; cbn in Hev, Hconn; congruence.
        -- repeat apply quiet_app; assumption.
      * intros evs2 [].
      * intros evs2 [Hk2 Hq2]. destruct (only_wait evs2 Hk2) as [Hs2 Hcc2]. split.
        { apply Hplan.
          - rewrite sockets_app, Hs1, Hs2. reflexivity.
          - rewrite connects_app, Hcc2, app_nil_r. exact Hsub1. }
        repeat apply quiet_app; assumption.
    + apply sat_ret. rewrite app_nil_r.
      split; [apply Hplan; assumption|].
      split; [assumption|]. split; [assumption|].
      split; [apply won_earlier; assumption|].
      intros evsa ev _ _. apply poll_free_app; assumption.
    + destruct Hc1.
  - intros evs1 (Hk1 & Hq1 & Hsub1). destruct (only_setup evs1 Hk1) as [Hs1 Hp1].
    split; [apply Hplan; assumption | apply quiet_app; assumption].
  - intros evs1 [].
Qed.

(** *** The labels *)

(** Tests that cannot have gone the way a leaf assumes. *)
Ltac absurd_tests :=
  match goal with
  | H : (?x =? ?x) = false |- _ => rewrite Z.eqb_refl in H; discriminate H
  | H : (fd ?p =? -1) = true, Hp : fd ?p <> -1 |- _ =>
      apply Z.eqb_eq in H; contradiction
  end.

Ltac handed :=
  match goal with
  | R : true = true <-> _ |- handed_over _ _ _ =>
      left; split; [|reflexivity];
      let fl := fresh "fl" in
      let Hin := fresh "Hin" in
      destruct (proj1 R eq_refl) as [fl Hin];
      exists fl; rewrite ?in_app_iff; auto
  | R : false = true <-> _ |- handed_over _ _ _ =>
      right; split; [|split; [reflexivity | rewrite ?in_app_iff; right; cbn [In]; auto]];
      let fl := fresh "fl" in
      let Hin := fresh "Hin" in
      intros [fl Hin]; rewrite ?in_app_iff in Hin;
      destruct Hin as [Hin|Hin];
      [ discriminate (proj2 R (ex_intro _ fl Hin))
      | cbn [In] in Hin; intuition discriminate ]
  end.

Lemma finish_won os fr w p :
  live fr -> sockfd fr = -1 -> 0 <= i fr < num fr -> load (pfd fr) (i fr) = Some p ->
  sat w (bind (got_one os) (fun _ => out os) fr w)
      (fun r _ evs =>
         Forall (fun ev => ev_finish ev = true) evs /\ handed_over (fd p) r evs)
      (fun _ => False)
      (fun _ => False).
Proof.
  intros Hlive Hsk Hi Hp.
  destruct Hlive as [sk ix p0 p1 a0 a1 s0 s1 | sk ix p0 p1 a0 a1 s0 s1 Hp0
                    | sk ix p0 p1 a0 a1 s0 s1 Hp0 Hp1];
    cbn [i num sockfd pfd] in Hi, Hsk, Hp; subst sk; [lia | |].
  - assert (ix = 0) by lia. subst ix. autorewrite with arr in Hp.
    injection Hp as <-. unfold got_one, out, close_body. exec.
    all: try absurd_tests.
    all: leaf; run; (split; [post | handed]).
  - assert (Hix : ix = 0 \/ ix = 1) by lia.
    destruct Hix; subst ix; autorewrite with arr in Hp; injection Hp as <-;
      unfold got_one, out, close_body; exec.
    all: try absurd_tests.
    all: leaf; run; (split; [post | handed]).
Qed.

Lemma finish_any os fr w :
  live fr ->
  sat w (bind (got_one os) (fun _ => out os) fr w)
      (fun _ _ evs => Forall (fun ev => ev_finish ev = true) evs)
      (fun evs => Forall (fun ev => ev_finish ev = true) evs)
      (fun _ => False).
Proof.
  intros Hlive.
  destruct Hlive as [sk ix p0 p1 a0 a1 s0 s1 | sk ix p0 p1 a0 a1 s0 s1 Hp0
                    | sk ix p0 p1 a0 a1 s0 s1 Hp0 Hp1];
    unfold got_one, out, close_body; run;
    destruct (load [p0; p1] ix) as [p|]; exec; leaf; run; post.
Qed.

Lemma out_spec os fr w :
  live fr ->
  sat w (out os fr w)
      (fun _ _ evs => Forall (fun ev => ev_finish ev = true) evs)
      (fun _ => False)
      (fun _ => False).
Proof.
  intros Hlive.
  destruct Hlive as [sk ix p0 p1 a0 a1 s0 s1 | sk ix p0 p1 a0 a1 s0 s1 Hp0
                    | sk ix p0 p1 a0 a1 s0 s1 Hp0 Hp1];
    unfold out, close_body; exec; leaf; run; post.
Qed.

Lemma planned_finish ai evs1 evs2 :
  planned ai evs1 -> Forall (fun ev => ev_finish ev = true) evs2 ->
  planned ai (evs1 ++ evs2).
Proof.
  intros [Hs Hc] K. destruct (only_finish evs2 K) as (Hs2 & Hc2 & _ & _). split.
  - rewrite sockets_app, Hs2, app_nil_r. exact Hs.
  - rewrite connects_app, Hc2, app_nil_r. exact Hc.
Qed.

(** *** The whole call *)

Lemma net_connect_spec os fuel ai g w :
  sat w (net_connect os fuel ai g w)
      (fun r _ evs =>
         planned ai evs
         /\ (quiet evs
             \/ exists pre ev s post,
                 evs = pre ++ ev :: post /\ wins ev = Some s
                 /\ quiet pre /\ quiet post
                 /\ (is_connect ev = true -> poll_free evs)
                 /\ handed_over s r post))
      (fun evs => planned ai evs /\ quiet evs)
      (fun evs => planned ai evs /\ quiet evs).
Proof.
  unfold net_connect, net_connect_m.
  eapply sat_bind; [apply race_spec | | | ]; cbn beta.
  - intros c fr1 w1 evs1 (Hplan & Hl & Hsk & Hc) T1. destruct c.
    + eapply sat_weaken; [apply finish_any; exact Hl | | | ]; cbn beta.
      * intros r fr2 evs2 K. destruct (only_finish evs2 K) as (_ & _ & Hq2 & _).
        split; [apply planned_finish; assumption|].
        left. apply quiet_app; assumption.
      * intros evs2 K. destruct (only_finish evs2 K) as (_ & _ & Hq2 & _).
        split; [apply planned_finish; assumption | apply quiet_app; assumption].
      * intros evs2 [].
    + destruct Hc as [[Hi (evs0 & ev & p & -> & Hw & Hp & Hq0)] Hinst].
      eapply sat_weaken; [apply (finish_won os fr1 w1 p); assumption | | | ];
        cbn beta.
      * intros r fr2 evs2 [K Hh].
        destruct (only_finish evs2 K) as (_ & _ & Hq2 & Hp2).
        split; [apply planned_finish; assumption|].
        right. exists evs0, ev, (fd p), evs2.
        split; [rewrite <- app_assoc; reflexivity|].
        split; [exact Hw|]. split; [exact Hq0|]. split; [exact Hq2|].
        split; [|exact Hh].
        intros Hconn. apply poll_free_app; [|exact Hp2].
        exact (Hinst evs0 ev eq_refl Hconn).
      * intros evs2 [].
      * intros evs2 [].
    + change (bind (ret ()) (fun _ => out os) fr1 w1) with (out os fr1 w1).
      eapply sat_weaken; [apply out_spec; exact Hl | | | ]; cbn beta.
      * intros r fr2 evs2 K. destruct (only_finish evs2 K) as (_ & _ & Hq2 & _).
        split; [apply planned_finish; assumption|].
        left. apply quiet_app; assumption.
      * intros evs2 [].
      * intros evs2 [].
  - intros evs H. exact H.
  - intros evs H. exact H.
Qed.

Lemma run_calls_sat {A : Type} w (o : outcome Frame A) evs :
  trace (final_world o) = trace w ++ evs -> run_calls w o = evs.
Proof. intros T. unfold run_calls. rewrite T. apply drop_app_length. Qed.

Lemma quiet_not_winner evs pre ev post s :
  quiet evs -> evs = pre ++ ev :: post -> wins ev = Some s -> False.
Proof.
  intros Hq -> Hw. apply Forall_app in Hq. destruct Hq as [_ Hq].
  inversion Hq as [|? ? Hev]. congruence.
Qed.

(** A list that is quiet but for one call splits around a winner in one
    way only. *)
Lemma winner_unique pre ev post pre0 ev0 post0 s :
  pre ++ ev :: post = pre0 ++ ev0 :: post0 ->
  wins ev = Some s -> quiet pre0 -> quiet post0 ->
  pre = pre0 /\ ev = ev0 /\ post = post0.
Proof.
  revert pre0. induction pre as [|y pre IH]; intros [|x pre0] Heq Hw Hq0 Hqp;
    cbn [app] in Heq; injection Heq as Hhd Htl.
  - subst. auto.
  - subst x. inversion Hq0 as [|? ? Hx]. congruence.
  - exfalso. eapply (quiet_not_winner post0); [exact Hqp | symmetry; exact Htl | exact Hw].
  - subst x. inversion Hq0 as [|? ? _ Hq0']. subst.
    destruct (IH pre0 Htl Hw Hq0' Hqp) as (-> & -> & ->). auto.
Qed.

(** What a run that declared [s] connected looks like. *)
Lemma net_connect_winner os fuel ai g w pre ev s post :
  run_calls w (net_connect os fuel ai g w) = pre ++ ev :: post ->
  wins ev = Some s ->
  (is_connect ev = true -> poll_free (run_calls w (net_connect os fuel ai g w)))
  /\ exists r, returned (net_connect os fuel ai g w) = Some r /\ handed_over s r post.
Proof.
  intros Hrun Hw.
  destruct (net_connect_spec os fuel ai g w) as [evs [T H]].
  rewrite (run_calls_sat _ _ _ T) in Hrun |- *. subst evs.
  destruct (net_connect os fuel ai g w) as [r fr w'|w'|w'].
  - destruct H as [_ [Hq | (pre0 & ev0 & s0 & post0 & Heq & Hw0 & Hq0 & Hqp & Hpoll & Hh)]].
    + exfalso. eapply quiet_not_winner; [exact Hq | reflexivity | exact Hw].
    + destruct (winner_unique _ _ _ _ _ _ _ Heq Hw Hq0 Hqp) as (-> & -> & ->).
      assert (s0 = s) by congruence. subst s0.
      split; [exact Hpoll|]. exists r. split; [reflexivity | exact Hh].
  - exfalso. destruct H as [_ Hq].
    eapply quiet_not_winner; [exact Hq | reflexivity | exact Hw].
  - exfalso. destruct H as [_ Hq].
    eapply quiet_not_winner; [exact Hq | reflexivity | exact Hw].
Qed.

(** C7: whatever the candidate list, the operating system and the outcome
    of the run, the [socket] calls are those for the first IPv6 candidate and
    then for the first IPv4 candidate of the list, and the [connect] calls
    go, in that order and at most once each, to the address of the first
    IPv6 candidate and to the address of the first IPv4 candidate; no other
    candidate is used. *)
Theorem net_connect_first_of_each_family os fuel ai g w :
  sockets (run_calls w (net_connect os fuel ai g w)) = planned_sockets ai
  /\ sublist (connects (run_calls w (net_connect os fuel ai g w))) (planned_targets ai).
Proof.
  destruct (net_connect_spec os fuel ai g w) as [evs [T H]].
  rewrite (run_calls_sat _ _ _ T).
  destruct (net_connect os fuel ai g w); destruct H as [H _]; exact H.
Qed.



(** C9: when a winner was found (a [connect] returned 0, or [getsockopt]
    reported no pending error) and the switch of the winning socket back to
    blocking mode fails (no [F_SETFL] on it returns 0), [net_connect]
    returns -1 and has closed the winning descriptor. *)
Theorem net_connect_restore_failure_fails os fuel ai g w pre ev s post :
  run_calls w (net_connect os fuel ai g w) = pre ++ ev :: post ->
  wins ev = Some s ->
  ~ (exists fl, In (EvSetfl s fl 0) post) ->
  returned (net_connect os fuel ai g w) = Some (-1) /\ In (EvClose s) post.
Proof.
  intros Hrun Hw Hfail.
  destruct (net_connect_winner os fuel ai g w pre ev s post Hrun Hw)
    as [_ (r & Hr & [[Hok _] | (_ & -> & Hclose)])].
  - contradiction.
  - split; assumption.
Qed.

Lemma net_connect_restore_failure_fails_witness :
  returned (net_connect (scripted script_instant_stuck) 0 [v4 400] zeroed boot)
  = Some (-1)
  /\ In (EvClose 3) [EvGetfl 3 (-1); EvClose 3].
Proof.
  apply (net_connect_restore_failure_fails
           (scripted script_instant_stuck) 0 [v4 400] zeroed boot
           [EvSocket AF_INET SOCK_STREAM 0 3; EvGetfl 3 2; EvSetfl 3 2050 0]
           (EvConnect 3 400 sizeof_sockaddr_in 0) 3 [EvGetfl 3 (-1); EvClose 3]).
  - vm_compute. reflexivity.
  - reflexivity.
  - intros [fl [H|[H|[]]]]; discriminate H.
Defined.

(** * Further properties *)

(** ** [set_nonblock] *)

Lemma calls_since_app w w' evs : trace w' = trace w ++ evs -> calls_since w w' = evs.
Proof. intros T. unfold calls_since. rewrite T. apply drop_app_length. Qed.

(** X1: [set_nonblock] stops after a failing [F_GETFL], reporting failure;
    otherwise it passes to [F_SETFL] the flags it read with the bits of
    [O_NONBLOCK] set to the requested value and every other bit unchanged,
    and reports whether [F_SETFL] returned 0. *)
Theorem set_nonblock_changes_only_nonblock os s b w :
  let '(okb, w') := set_nonblock os s b w in
  (okb = false /\ calls_since w w' = [EvGetfl s (-1)])
  \/ exists flags fl r,
      flags <> -1
      /\ calls_since w w' = [EvGetfl s flags; EvSetfl s fl r]
      /\ okb = (r =? 0)
      /\ forall n, Z.testbit fl n
                   = if Z.testbit O_NONBLOCK n then b else Z.testbit flags n.
Proof.
  unfold set_nonblock, sys_getfl, sys_setfl.
  destruct (os_getfl os w s) as [flags e1]. cbv beta iota zeta.
  destruct (flags =? -1) eqn:Ef.
  - left. apply Z.eqb_eq in Ef. subst flags. split; [reflexivity|].
    apply calls_since_app. reflexivity.
  - apply Z.eqb_neq in Ef.
    match goal with
    | |- context [os_setfl os ?w1 s ?fl] =>
        destruct (os_setfl os w1 s fl) as [r e2]; cbv beta iota zeta;
        right; exists flags, fl, r
    end.
    split; [exact Ef|]. split.
    { apply calls_since_app. cbn [trace record]. rewrite <- app_assoc. reflexivity. }
    split; [reflexivity|].
    intros n. destruct b.
    + rewrite Z.lor_spec. destruct (Z.testbit O_NONBLOCK n).
      * apply orb_true_r.
      * apply orb_false_r.
    + destruct (Z.ltb_spec n 0) as [Hn|Hn].
      * rewrite !Z.testbit_neg_r by exact Hn. reflexivity.
      * rewrite Z.land_spec, Z.lnot_spec by exact Hn.
        destruct (Z.testbit O_NONBLOCK n).
        -- apply andb_false_r.
        -- apply andb_true_r.
Qed.

(** ** The listen socket factory, on success *)

Lemma ltb_false_nonneg z : (z <? 0) = false -> 0 <= z.
Proof. intros H. apply Z.ltb_ge in H. exact H. Qed.

(** X2: [make_listen_fd] returns -1 or a descriptor; a descriptor it returns
    is the one [socket] gave, bound to the candidate's address by a [bind]
    that returned 0, put into the listening state (backlog 5, [listen]
    returning 0) exactly when the socket type is stream or sequenced packet,
    and not closed. *)
Theorem make_listen_fd_returns_bound os a w :
  let '(r, w') := make_listen_fd os a w in
  (r = -1 \/ 0 <= r)
  /\ (0 <= r ->
      exists rs,
        calls_since w w'
        = [EvSocket (ai_family a) (ai_socktype a) (ai_protocol a) r;
           EvSetsockopt r rs; EvBind r (ai_addr a) (ai_addrlen a) 0]
          ++ (if should_listen a then [EvListen r 5 0] else [])).
Proof.
  unfold make_listen_fd, listen_fail, sys_socket, sys_setsockopt, sys_bind,
    sys_listen, sys_close.
  destruct (os_socket os w _ _ _) as [s e0]. cbv beta iota zeta.
  destruct (s <? 0) eqn:Es.
  { split; [left; reflexivity | intros H; lia]. }
  apply ltb_false_nonneg in Es.
  destruct (os_setsockopt os _ s) as [rs e1]. cbv beta iota zeta.
  destruct (os_bind os _ s _ _) as [rb e2]. cbv beta iota zeta.
  destruct (rb =? 0) eqn:Eb; cbn [negb].
  2:{ destruct (os_close os _ s) as [rc e3]. cbv beta iota zeta.
      split; [left; reflexivity | intros H; lia]. }
  apply Z.eqb_eq in Eb. subst rb.
  destruct (should_listen a).
  - destruct (os_listen os _ s 5) as [rl e3]. cbv beta iota zeta.
    destruct (rl =? 0) eqn:El; cbn [negb].
    + apply Z.eqb_eq in El. subst rl. split; [right; exact Es|].
      intros _. exists rs. apply calls_since_app.
      cbn [trace record app]. rewrite <- !app_assoc. reflexivity.
    + destruct (os_close os _ s) as [rc e4]. cbv beta iota zeta.
      split; [left; reflexivity | intros H; lia].
  - split; [right; exact Es|].
    intros _. exists rs. apply calls_since_app.
    cbn [trace record app]. rewrite <- !app_assoc. reflexivity.
Qed.

Lemma make_listen_fd_returns_bound_witness :
  exists rs,
    [EvSocket AF_INET SOCK_DGRAM 17 3; EvSetsockopt 3 0; EvBind 3 400 16 0]
    = [EvSocket AF_INET SOCK_DGRAM 17 3; EvSetsockopt 3 rs; EvBind 3 400 16 0] ++ [].
Proof.
  exact (proj2 (make_listen_fd_returns_bound
                  (scripted [ok 3; ok 0; ok 0])
                  {| ai_family := AF_INET; ai_socktype := SOCK_DGRAM;
                     ai_protocol := 17; ai_addrlen := 16; ai_addr := 400 |} boot)
               ltac:(vm_compute; discriminate)).
Defined.

(** ** The dual-stack binder: descriptors and slots *)

Lemma opened_app evs1 evs2 : opened (evs1 ++ evs2) = opened evs1 ++ opened evs2.
Proof. apply omap_app. Qed.

Lemma closed_app evs1 evs2 : closed (evs1 ++ evs2) = closed evs1 ++ closed evs2.
Proof. apply omap_app. Qed.

(** The factory closes every socket it opened and does not return. *)
Lemma make_listen_fd_balance os a w :
  exists evs,
    trace (snd (make_listen_fd os a w)) = trace w ++ evs
    /\ opened evs
       = closed evs ++ filter (fun s => 0 <= s) [fst (make_listen_fd os a w)].
Proof.
  assert (Hno : filter (fun s => 0 <= s) [-1] = []).
  { rewrite filter_cons_False by lia. reflexivity. }
  unfold make_listen_fd, listen_fail, sys_socket, sys_setsockopt, sys_bind,
    sys_listen, sys_close.
  destruct (os_socket os w _ _ _) as [s e0]. cbv beta iota zeta.
  destruct (s <? 0) eqn:Es.
  { eexists. split; [reflexivity|]. cbn [fst]. rewrite Hno.
    unfold opened, closed. cbn [omap list_omap app].
    apply Z.ltb_lt in Es. replace (0 <=? s) with false by (symmetry; apply Z.leb_gt; lia).
    reflexivity. }
  assert (Hs : (0 <=? s) = true) by (apply Z.leb_le; apply ltb_false_nonneg; exact Es).
  apply ltb_false_nonneg in Es.
  assert (Hyes : filter (fun s => 0 <= s) [s] = [s]).
  { rewrite filter_cons_True by exact Es. reflexivity. }
  destruct (os_setsockopt os _ s) as [rs e1]. cbv beta iota zeta.
  destruct (os_bind os _ s _ _) as [rb e2]. cbv beta iota zeta.
  destruct (rb =? 0); cbn [negb];
    [destruct (should_listen a);
     [destruct (os_listen os _ s 5) as [rl e3]; cbv beta iota zeta;
      destruct (rl =? 0); cbn [negb] |] |];
    try (destruct (os_close os _ s) as [rc e4]; cbv beta iota zeta);
    eexists; cbn [trace record set_errno snd fst]; rewrite <- ?app_assoc;
    (split; [reflexivity|]);
    rewrite ?Hno, ?Hyes; unfold opened, closed; cbn [omap list_omap app];
    rewrite Hs; reflexivity.
Qed.

Lemma slot_balance os (slot : option addrinfo) w :
  let run := match slot with
             | Some c => make_listen_fd os c w
             | None => (-1, w)
             end in
  exists evs,
    trace (snd run) = trace w ++ evs
    /\ opened evs = closed evs ++ filter (fun s => 0 <= s) [fst run].
Proof.
  destruct slot as [c|]; cbv zeta.
  - apply make_listen_fd_balance.
  - exists []. split; [symmetry; apply app_nil_r|].
    cbn [fst]. rewrite filter_cons_False by lia. reflexivity.
Qed.

(** The slots of [net_bind] are the candidates of the two families. *)
Lemma bind_slots_by_family a next :
  bind_slots a next
  = (bind_candidate AF_INET (a :: next), bind_candidate AF_INET6 (a :: next)).
Proof.
  assert (X : forall z, (z =? AF_INET) = true -> (z =? AF_INET6) = false).
  { intros z H. apply Z.eqb_eq in H. subst z. reflexivity. }
  unfold bind_slots, bind_candidate.
  destruct next as [|b next]; cbv [take firstn rev app find];
    repeat match goal with
           | |- context [?z =? AF_INET] =>
               let E := fresh "E" in
               destruct (z =? AF_INET) eqn:E; [rewrite ?(X z E)|]
           | |- context [?z =? AF_INET6] => destruct (z =? AF_INET6)
           end; reflexivity.
Qed.

Lemma bind_candidate_family family ai c :
  bind_candidate family ai = Some c -> ai_family c = family.
Proof.
  unfold bind_candidate. intros H. apply find_some in H.
  apply Z.eqb_eq. exact (proj2 H).
Qed.

(** The factory calls [socket] once, with the family, the type and the
    protocol of its candidate. *)
Lemma make_listen_fd_sockets os a w :
  exists evs,
    trace (snd (make_listen_fd os a w)) = trace w ++ evs
    /\ sockets evs = [(ai_family a, ai_socktype a, ai_protocol a)].
Proof.
  unfold make_listen_fd, listen_fail, sys_socket, sys_setsockopt, sys_bind,
    sys_listen, sys_close.
  destruct (os_socket os w _ _ _) as [s e0]. cbv beta iota zeta.
  destruct (s <? 0).
  { eexists. split; reflexivity. }
  destruct (os_setsockopt os _ s) as [rs e1]. cbv beta iota zeta.
  destruct (os_bind os _ s _ _) as [rb e2]. cbv beta iota zeta.
  destruct (rb =? 0); cbn [negb];
    [destruct (should_listen a);
     [destruct (os_listen os _ s 5) as [rl e3]; cbv beta iota zeta;
      destruct (rl =? 0); cbn [negb] |] |];
    try (destruct (os_close os _ s) as [rc e4]; cbv beta iota zeta);
    eexists; cbn [trace record set_errno snd fst]; rewrite <- ?app_assoc;
    (split; reflexivity).
Qed.

Lemma slot_sockets os (slot : option addrinfo) w :
  let run := match slot with
             | Some c => make_listen_fd os c w
             | None => (-1, w)
             end in
  exists evs,
    trace (snd run) = trace w ++ evs
    /\ sockets evs
       = match slot with
         | Some c => [(ai_family c, ai_socktype c, ai_protocol c)]
         | None => []
         end.
Proof.
  destruct slot as [c|]; cbv zeta.
  - apply make_listen_fd_sockets.
  - exists []. split; [symmetry; apply app_nil_r | reflexivity].
Qed.

(** The [socket] calls of [net_bind]: one for the IPv6 candidate, then one
    for the IPv4 candidate. *)
Lemma net_bind_sockets os a next fds w :
  length fds = 2%nat ->
  sockets (run_calls w (net_bind os (a :: next) fds w))
  = family_socket AF_INET6 (bind_candidate AF_INET6 (a :: next))
    ++ family_socket AF_INET (bind_candidate AF_INET (a :: next)).
Proof.
  intros Hlen.
  pose proof (net_bind_run os a next fds w Hlen) as H.
  pose proof (bind_candidate_family AF_INET6 (a :: next)) as F6.
  pose proof (bind_candidate_family AF_INET (a :: next)) as F4.
  rewrite bind_slots_by_family in H.
  destruct (bind_candidate AF_INET6 (a :: next)) as [c6|];
    destruct (bind_candidate AF_INET (a :: next)) as [c4|]; cbv zeta in H;
    destruct H as [fds' [Hrun _]]; rewrite Hrun;
    unfold run_calls; cbn [final_world family_socket].
  - destruct (make_listen_fd_sockets os c6 w) as [evs6 [T6 S6]].
    destruct (make_listen_fd_sockets os c4 (snd (make_listen_fd os c6 w)))
      as [evs4 [T4 S4]].
    rewrite T4, T6, <- app_assoc, drop_app_length, sockets_app, S6, S4.
    rewrite (F6 c6 eq_refl), (F4 c4 eq_refl). reflexivity.
  - destruct (make_listen_fd_sockets os c6 w) as [evs6 [T6 S6]].
    cbn [snd]. rewrite T6, drop_app_length, S6, (F6 c6 eq_refl). reflexivity.
  - destruct (make_listen_fd_sockets os c4 w) as [evs4 [T4 S4]].
    cbn [snd]. rewrite T4, drop_app_length, S4, (F4 c4 eq_refl). reflexivity.
  - cbn [snd]. rewrite drop_all. reflexivity.
Qed.

(** C8: on a non-empty candidate list, [net_bind] takes as the IPv6
    candidate the last of the first two entries whose [ai_family] is
    [AF_INET6], and as the IPv4 candidate the last one whose [ai_family] is
    [AF_INET].  It runs the factory for the IPv6 candidate first and for the
    IPv4 candidate next, whatever the first attempt gave: the [socket] calls
    of the run are the one for [AF_INET6], then the one for [AF_INET].  It
    returns the number of descriptors produced (1 or 2), stored in that order
    at the front of [fds], and -1 exactly when no attempt produced one. *)
Theorem net_bind_counts (os : OS) (a : addrinfo) (next : list addrinfo)
        (fds : list Z) (w : World) :
  length fds = 2%nat ->
  let ipv6 := bind_candidate AF_INET6 (a :: next) in
  let ipv4 := bind_candidate AF_INET (a :: next) in
  let r6 := match ipv6 with Some c => make_listen_fd os c w | None => (-1, w) end in
  let r4 := match ipv4 with
            | Some c => make_listen_fd os c (snd r6)
            | None => (-1, snd r6)
            end in
  let got := filter (fun s => 0 <= s) [fst r6; fst r4] in
  (forall c, ipv6 = Some c -> ai_family c = AF_INET6)
  /\ (forall c, ipv4 = Some c -> ai_family c = AF_INET)
  /\ sockets (run_calls w (net_bind os (a :: next) fds w))
     = family_socket AF_INET6 ipv6 ++ family_socket AF_INET ipv4
  /\ exists fds',
      net_bind os (a :: next) fds w
      = Ret (match got with [] => -1 | _ => Z.of_nat (length got) end) fds' (snd r4)
      /\ take (length got) fds' = got.
Proof.
  intros Hlen. cbv zeta.
  split; [apply bind_candidate_family|].
  split; [apply bind_candidate_family|].
  split; [apply net_bind_sockets; exact Hlen|].
  pose proof (net_bind_run os a next fds w Hlen) as H.
  rewrite bind_slots_by_family in H. exact H.
Qed.

Lemma net_bind_counts_witness :
  sockets (run_calls boot
             (net_bind (scripted [ok 3; ok 0; ok 0; ok 0; ok 4; ok 0; failing 98; ok 0])
                       [v4 400; v6 600] [0; 0] boot))
  = [(AF_INET6, SOCK_STREAM, 0); (AF_INET, SOCK_STREAM, 0)]
  /\ exists fds',
      net_bind (scripted [ok 3; ok 0; ok 0; ok 0; ok 4; ok 0; failing 98; ok 0])
               [v4 400; v6 600] [0; 0] boot
      = Ret 1 fds' {| errno := 98;
                      trace := [EvSocket AF_INET6 SOCK_STREAM 0 3; EvSetsockopt 3 0;
                                EvBind 3 600 sizeof_sockaddr_in6 0; EvListen 3 5 0;
                                EvSocket AF_INET SOCK_STREAM 0 4; EvSetsockopt 4 0;
                                EvBind 4 400 sizeof_sockaddr_in (-1); EvClose 4] |}
      /\ take 1 fds' = [3].
Proof.
  exact (proj2 (proj2
           (net_bind_counts
              (scripted [ok 3; ok 0; ok 0; ok 0; ok 4; ok 0; failing 98; ok 0])
              (v4 400) [v6 600] [0; 0] boot eq_refl))).
Defined.

(** X3: [net_bind] leaks no descriptor: the descriptors its [socket] calls
    handed out are, up to order, those it closed together with those it
    returns at the front of [fds]. *)
Theorem net_bind_no_leak os a next fds w r fds' w' :
  length fds = 2%nat ->
  net_bind os (a :: next) fds w = Ret r fds' w' ->
  opened (calls_since w w')
  ≡ₚ closed (calls_since w w') ++ take (Z.to_nat r) fds'.
Proof.
  intros Hlen Hrun.
  pose proof (net_bind_run os a next fds w Hlen) as H.
  destruct (bind_slots a next) as [ipv4 ipv6]. cbv zeta in H.
  destruct (slot_balance os ipv6 w) as [evs6 [T6 B6]]. cbv zeta in T6, B6.
  set (r6 := match ipv6 with Some c => make_listen_fd os c w | None => (-1, w) end) in *.
  destruct (slot_balance os ipv4 (snd r6)) as [evs4 [T4 B4]]. cbv zeta in T4, B4.
  set (r4 := match ipv4 with
             | Some c => make_listen_fd os c (snd r6)
             | None => (-1, snd r6)
             end) in *.
  destruct H as [fds0 [Heq Htake]]. rewrite Hrun in Heq.
  injection Heq as Hr <- Hw. subst w'.
  assert (Hgot : filter (fun s => 0 <= s) [fst r6; fst r4]
                 = filter (fun s => 0 <= s) [fst r6] ++ filter (fun s => 0 <= s) [fst r4])
    by (apply (filter_app _ [fst r6] [fst r4])).
  assert (Hn : Z.to_nat r = length (filter (fun s => 0 <= s) [fst r6; fst r4])).
  { rewrite Hr. destruct (filter _ _); [reflexivity | apply Nat2Z.id]. }
  rewrite Hn, Htake, Hgot.
  rewrite (calls_since_app w (snd r4) (evs6 ++ evs4))
    by (rewrite T4, T6, app_assoc; reflexivity).
  rewrite opened_app, closed_app, B6, B4.
  rewrite <- !app_assoc. apply Permutation_app_head.
  rewrite !app_assoc. apply Permutation_app_tail. apply Permutation_app_comm.
Qed.

Lemma net_bind_no_leak_witness :
  opened [EvSocket AF_INET6 SOCK_STREAM 0 3; EvSetsockopt 3 0;
          EvBind 3 600 sizeof_sockaddr_in6 0; EvListen 3 5 0;
          EvSocket AF_INET SOCK_STREAM 0 4; EvSetsockopt 4 0;
          EvBind 4 400 sizeof_sockaddr_in (-1); EvClose 4]
  ≡ₚ closed [EvSocket AF_INET6 SOCK_STREAM 0 3; EvSetsockopt 3 0;
             EvBind 3 600 sizeof_sockaddr_in6 0; EvListen 3 5 0;
             EvSocket AF_INET SOCK_STREAM 0 4; EvSetsockopt 4 0;
             EvBind 4 400 sizeof_sockaddr_in (-1); EvClose 4]
     ++ take (Z.to_nat 1) [3; -1].
Proof.
  exact (net_bind_no_leak
           (scripted [ok 3; ok 0; ok 0; ok 0; ok 4; ok 0; failing 98; ok 0])
           (v4 400) [v6 600] [0; 0] boot 1 [3; -1]
           {| errno := 98;
              trace := [EvSocket AF_INET6 SOCK_STREAM 0 3; EvSetsockopt 3 0;
                        EvBind 3 600 sizeof_sockaddr_in6 0; EvListen 3 5 0;
                        EvSocket AF_INET SOCK_STREAM 0 4; EvSetsockopt 4 0;
                        EvBind 4 400 sizeof_sockaddr_in (-1); EvClose 4] |}
           eq_refl eq_refl).
Defined.

(** X4: when the first two candidates are of the same family, [net_bind]
    uses the second and never the first: the call runs as on the second
    candidate alone. *)
Theorem net_bind_second_overrides_first os a b rest fds w :
  ai_family a = ai_family b ->
  net_bind os (a :: b :: rest) fds w = net_bind os [b] fds w.
Proof.
  intros Hfam. unfold net_bind, bind_slots. rewrite Hfam.
  destruct (ai_family b =? AF_INET) eqn:E4; [reflexivity|].
  destruct (ai_family b =? AF_INET6); reflexivity.
Qed.

Lemma net_bind_second_overrides_first_witness :
  net_bind (scripted []) [v4 400; v4 401; v6 600] [0; 0] boot
  = net_bind (scripted []) [v4 401] [0; 0] boot.
Proof.
  exact (net_bind_second_overrides_first (scripted []) (v4 400) (v4 401) [v6 600]
                                         [0; 0] boot eq_refl).
Defined.

(** X5: [net_bind] does not depend on which of an IPv4 and an IPv6 candidate
    comes first, nor on what follows them: the run is the same, and IPv6 is
    bound first either way, the [socket] call for the IPv6 candidate coming
    before the one for the IPv4 candidate. *)
Theorem net_bind_order_irrelevant os a b rest rest' fds w :
  ai_family a = AF_INET -> ai_family b = AF_INET6 ->
  net_bind os (a :: b :: rest) fds w = net_bind os (b :: a :: rest') fds w
  /\ (length fds = 2%nat ->
      sockets (run_calls w (net_bind os (a :: b :: rest) fds w))
      = [(AF_INET6, ai_socktype b, ai_protocol b);
         (AF_INET, ai_socktype a, ai_protocol a)]
      /\ sockets (run_calls w (net_bind os (b :: a :: rest') fds w))
         = [(AF_INET6, ai_socktype b, ai_protocol b);
            (AF_INET, ai_socktype a, ai_protocol a)]).
Proof.
  intros Ha Hb.
  assert (Heq : net_bind os (a :: b :: rest) fds w
                = net_bind os (b :: a :: rest') fds w).
  { unfold net_bind, bind_slots. rewrite Ha, Hb. reflexivity. }
  split; [exact Heq|].
  intros Hlen. rewrite <- Heq. split; [|idtac];
    rewrite (net_bind_sockets os a (b :: rest) fds w Hlen);
    unfold bind_candidate; cbv [take firstn rev app find];
    rewrite Ha, Hb; reflexivity.
Qed.

Lemma net_bind_order_irrelevant_witness :
  net_bind (scripted [ok 3; ok 0; ok 0; ok 0; failing 24]) [v4 400; v6 600] [0; 0] boot
  = net_bind (scripted [ok 3; ok 0; ok 0; ok 0; failing 24])
             [v6 600; v4 400; v4 401] [0; 0] boot
  /\ sockets (run_calls boot
                (net_bind (scripted [ok 3; ok 0; ok 0; ok 0; failing 24])
                          [v4 400; v6 600] [0; 0] boot))
     = [(AF_INET6, SOCK_STREAM, 0); (AF_INET, SOCK_STREAM, 0)]
  /\ sockets (run_calls boot
                (net_bind (scripted [ok 3; ok 0; ok 0; ok 0; failing 24])
                          [v6 600; v4 400; v4 401] [0; 0] boot))
     = [(AF_INET6, SOCK_STREAM, 0); (AF_INET, SOCK_STREAM, 0)].
Proof.
  pose proof (net_bind_order_irrelevant
                (scripted [ok 3; ok 0; ok 0; ok 0; failing 24])
                (v4 400) (v6 600) [] [v4 401] [0; 0] boot eq_refl eq_refl) as H.
  exact (conj (proj1 H) (proj2 H eq_refl)).
Defined.

(** X6: when neither of the first two candidates is IPv4 or IPv6,
    [net_bind] returns -1 without any system call, leaving [fds] and
    [errno] as they were. *)
Theorem net_bind_no_family os a next fds w :
  ai_family a <> AF_INET -> ai_family a <> AF_INET6 ->
  (forall b, head next = Some b -> ai_family b <> AF_INET /\ ai_family b <> AF_INET6) ->
  net_bind os (a :: next) fds w = Ret (-1) fds w.
Proof.
  intros H4 H6 Hnext. unfold net_bind, bind_slots.
  apply Z.eqb_neq in H4, H6. rewrite H4, H6.
  destruct next as [|b next]; [reflexivity|].
  destruct (Hnext b eq_refl) as [Hb4 Hb6].
  apply Z.eqb_neq in Hb4, Hb6. rewrite Hb4, Hb6. reflexivity.
Qed.

Lemma net_bind_no_family_witness :
  net_bind (scripted [])
           [{| ai_family := 1; ai_socktype := SOCK_STREAM; ai_protocol := 0;
               ai_addrlen := 110; ai_addr := 100 |}] [7; 8] boot
  = Ret (-1) [7; 8] boot.
Proof.
  apply net_bind_no_family.
  - discriminate.
  - discriminate.
  - intros b H. discriminate H.
Defined.

(** ** [remove_fd] *)

Lemma u32_small z : 0 <= z < 2 ^ 32 -> u32 z = z.
Proof. intros H. unfold u32. apply Z.mod_small. exact H. Qed.

Lemma u32_wrap z : - 2 ^ 32 <= z < 0 -> u32 z = z + 2 ^ 32.
Proof.
  intros H. unfold u32.
  rewrite <- (Z.mod_small (z + 2 ^ 32) (2 ^ 32)) by lia.
  rewrite <- (Z_mod_plus_full z 1 (2 ^ 32)). f_equal; lia.
Qed.

(** On a list, the move of [remove_fd] deletes the entry at [idx] from the
    first [n] entries and keeps the length. *)
Lemma memmove_delete {A : Type} (l : list A) (idx n : Z) :
  0 <= idx < n -> n <= Z.of_nat (length l) -> n < 2 ^ 32 ->
  exists l',
    memmove l idx (idx + 1) (u32 (n - idx - 1)) = Some l'
    /\ length l' = length l
    /\ take (Z.to_nat (n - 1)) l' = delete (Z.to_nat idx) (take (Z.to_nat n) l).
Proof.
  intros Hidx Hn Hn32. rewrite u32_small by lia. unfold memmove.
  replace ((0 <=? idx) && (0 <=? idx + 1) && (0 <=? n - idx - 1)
           && (idx + 1 + (n - idx - 1) <=? Z.of_nat (length l))
           && (idx + (n - idx - 1) <=? Z.of_nat (length l))) with true.
  2:{ symmetry. repeat (apply andb_true_intro; split); apply Z.leb_le; lia. }
  eexists. split; [reflexivity|].
  replace (Z.to_nat (idx + 1)) with (S (Z.to_nat idx)) by lia.
  replace (Z.to_nat (idx + (n - idx - 1))) with (Z.to_nat idx + Z.to_nat (n - idx - 1))%nat
    by lia.
  replace (Z.to_nat (n - 1)) with (Z.to_nat idx + Z.to_nat (n - idx - 1))%nat by lia.
  replace (Z.to_nat n) with (S (Z.to_nat idx) + Z.to_nat (n - idx - 1))%nat by lia.
  assert (Hlen : (S (Z.to_nat idx) + Z.to_nat (n - idx - 1) <= length l)%nat) by lia.
  generalize dependent (Z.to_nat (n - idx - 1)). generalize (Z.to_nat idx).
  clear. intros k m Hlen. split.
  - rewrite !length_app, !length_take, !length_drop. lia.
  - rewrite app_assoc, take_app_length'.
    2:{ rewrite length_app, !length_take, length_drop. lia. }
    rewrite delete_take_drop, take_take, skipn_firstn_comm.
    f_equal; f_equal; lia.
Qed.

(** X7: for an index below [num], [remove_fd] makes no system call and
    returns with [num] one less and, in each of the three arrays, the entry
    at the index deleted from the first [num] entries, the others keeping
    their order; the arrays keep their length and [i] and [sockfd] their
    value. *)
Theorem remove_fd_deletes_entry idx fr w :
  0 <= idx < num fr -> num fr < 2 ^ 32 ->
  num fr <= Z.of_nat (length (pfd fr)) ->
  num fr <= Z.of_nat (length (addr fr)) ->
  num fr <= Z.of_nat (length (slen fr)) ->
  exists fr',
    remove_fd idx fr w = Ret tt fr' w
    /\ num fr' = num fr - 1 /\ i fr' = i fr /\ sockfd fr' = sockfd fr
    /\ length (pfd fr') = length (pfd fr)
    /\ length (addr fr') = length (addr fr)
    /\ length (slen fr') = length (slen fr)
    /\ take (Z.to_nat (num fr')) (pfd fr')
       = delete (Z.to_nat idx) (take (Z.to_nat (num fr)) (pfd fr))
    /\ take (Z.to_nat (num fr')) (addr fr')
       = delete (Z.to_nat idx) (take (Z.to_nat (num fr)) (addr fr))
    /\ take (Z.to_nat (num fr')) (slen fr')
       = delete (Z.to_nat idx) (take (Z.to_nat (num fr)) (slen fr)).
Proof.
  intros Hidx Hn32 Hp Ha Hs.
  destruct (memmove_delete (pfd fr) idx (num fr) Hidx Hp Hn32) as (lp & Ep & Lp & Tp).
  destruct (memmove_delete (addr fr) idx (num fr) Hidx Ha Hn32) as (la & Ea & La & Ta).
  destruct (memmove_delete (slen fr) idx (num fr) Hidx Hs Hn32) as (ls & Es & Ls & Ts).
  unfold remove_fd, bind, get, defined, modify. rewrite Ep, Ea, Es.
  cbv beta iota delta [ret].
  eexists. split; [reflexivity|].
  cbn [num i sockfd pfd addr slen set_num set_slen set_addr set_pfd].
  rewrite (u32_small (num fr - 1)) by lia.
  repeat split; assumption.
Qed.

Lemma remove_fd_deletes_entry_witness :
  exists fr',
    remove_fd 0 {| sockfd := -1; i := 0; num := 2;
                   pfd := [mk_pollfd 3 0 0; mk_pollfd 4 0 0];
                   addr := [Some (v6 600); Some (v4 400)];
                   slen := [sizeof_sockaddr_in6; sizeof_sockaddr_in] |} boot
    = Ret tt fr' boot
    /\ num fr' = 1
    /\ take 1 (pfd fr') = [mk_pollfd 4 0 0]
    /\ take 1 (addr fr') = [Some (v4 400)]
    /\ take 1 (slen fr') = [sizeof_sockaddr_in].
Proof.
  destruct (remove_fd_deletes_entry
              0 {| sockfd := -1; i := 0; num := 2;
                   pfd := [mk_pollfd 3 0 0; mk_pollfd 4 0 0];
                   addr := [Some (v6 600); Some (v4 400)];
                   slen := [sizeof_sockaddr_in6; sizeof_sockaddr_in] |} boot)
    as (fr' & E & Hn & _ & _ & _ & _ & _ & Tp & Ta & Ts);
    try (cbn [num pfd addr slen length]; lia).
  exists fr'. rewrite Hn in Tp, Ta, Ts.
  split; [exact E|]. split; [exact Hn|].
  split; [exact Tp|]. split; [exact Ta | exact Ts].
Defined.

(** X8: [remove_fd] is undefined for an index that is not below [num]: the
    count of entries to move wraps around and the move leaves the array. *)
Theorem remove_fd_needs_live_index idx fr w :
  0 <= num fr <= idx -> idx < 2 ^ 32 ->
  Z.of_nat (length (pfd fr)) < 2 ^ 32 ->
  remove_fd idx fr w = Undef w.
Proof.
  intros Hidx H32 Hlen.
  unfold remove_fd, bind, get, defined.
  rewrite u32_wrap by lia. unfold memmove.
  replace (idx + 1 + (num fr - idx - 1 + 2 ^ 32) <=? Z.of_nat (length (pfd fr)))
    with false by (symmetry; apply Z.leb_gt; lia).
  rewrite andb_false_r. reflexivity.
Qed.

Lemma remove_fd_needs_live_index_witness :
  remove_fd 1 {| sockfd := -1; i := 1; num := 1;
                 pfd := [mk_pollfd 3 0 0; mk_pollfd 4 0 0];
                 addr := [Some (v6 600); None];
                 slen := [sizeof_sockaddr_in6; 0] |} boot
  = Undef boot.
Proof.
  apply remove_fd_needs_live_index; cbn [num pfd length]; lia.
Defined.

(** ** The cleanup of [net_connect] *)

(** The run of the code at [out:]. *)
Lemma out_run os fr w :
  live fr ->
  exists fr' w',
    out os fr w = Ret (sockfd fr) fr' w'
    /\ errno w' = errno w
    /\ calls_since w w'
       = map EvClose
             (List.filter (fun s => negb (s =? sockfd fr))
                          (map fd (take (Z.to_nat (num fr)) (pfd fr)))).
Proof.
  intros Hlive.
  destruct Hlive as [sk ix p0 p1 a0 a1 s0 s1 | sk ix p0 p1 a0 a1 s0 s1 Hp0
                    | sk ix p0 p1 a0 a1 s0 s1 Hp0 Hp1];
    unfold out, close_body; exec.
  all: do 2 eexists; (split; [reflexivity|]); (split; [reflexivity|]).
  all: apply calls_since_app; history.
  all: cbn [map List.filter negb app]; decided; cbn [map List.filter negb app].
  all: first [reflexivity | symmetry; apply app_nil_r].
Qed.

(** X9: from a state where the first [num] array entries hold the sockets
    in play, the code at [out:] closes, in array order, exactly those whose
    descriptor differs from [sockfd], returns [sockfd], and leaves [errno]
    as it found it whatever [close] does to it. *)
Theorem out_closes_the_others os fr w :
  live fr ->
  exists fr' w',
    out os fr w = Ret (sockfd fr) fr' w'
    /\ errno w' = errno w
    /\ calls_since w w'
       = map EvClose
             (List.filter (fun s => negb (s =? sockfd fr))
                          (map fd (take (Z.to_nat (num fr)) (pfd fr)))).
Proof. apply out_run. Qed.

Lemma out_closes_the_others_witness :
  exists fr' w',
    out (scripted [ok 0; ok 0])
        {| sockfd := 4; i := 0; num := 2;
           pfd := [mk_pollfd 3 POLLOUT 0; mk_pollfd 4 POLLOUT 0];
           addr := [Some (v6 600); Some (v4 400)];
           slen := [sizeof_sockaddr_in6; sizeof_sockaddr_in] |} boot
    = Ret 4 fr' w'
    /\ errno w' = 0
    /\ calls_since boot w' = [EvClose 3].
Proof.
  apply (out_closes_the_others
           (scripted [ok 0; ok 0])
           {| sockfd := 4; i := 0; num := 2;
              pfd := [mk_pollfd 3 POLLOUT 0; mk_pollfd 4 POLLOUT 0];
              addr := [Some (v6 600); Some (v4 400)];
              slen := [sizeof_sockaddr_in6; sizeof_sockaddr_in] |} boot).
  apply live_2; discriminate.
Defined.

(** ** [net_connect] and the candidate list *)

Lemma first_of_family f ai a : first_of f ai = Some a -> ai_family a = f.
Proof.
  unfold first_of. intros H. apply find_some in H. destruct H as [_ H].
  apply Z.eqb_eq. exact H.
Qed.

Lemma scan_first_candidates ai :
  scan (first_candidates ai) None None = scan ai None None.
Proof.
  rewrite !scan_first. unfold first_candidates.
  destruct (first_of AF_INET6 ai) as [a6|] eqn:E6;
    destruct (first_of AF_INET ai) as [a4|] eqn:E4;
    try (apply first_of_family in E6); try (apply first_of_family in E4);
    cbv [option_list option_rect app first_of find]; rewrite ?E6, ?E4; reflexivity.
Qed.

(** X10: [net_connect] depends on its candidate list only through the
    first IPv6 and the first IPv4 candidate: the run on any list is the run
    on the list cut down to those two, IPv6 first. *)
Theorem net_connect_uses_first_candidates os fuel ai g w :
  net_connect os fuel ai g w = net_connect os fuel (first_candidates ai) g w.
Proof.
  unfold net_connect, net_connect_m, race.
  rewrite scan_first_candidates. reflexivity.
Qed.

(** X11: on a list with no IPv4 and no IPv6 candidate (the empty list
    included), [net_connect] makes no [socket], [connect], [poll] or
    [close] call: its only calls are those of [set_nonblock] on whatever the
    stack holds for [pfd[0].fd], which it returns if that switch succeeds,
    returning -1 otherwise. *)
Theorem net_connect_without_candidates os fuel ai g w :
  first_of AF_INET ai = None -> first_of AF_INET6 ai = None ->
  let s := fd (stk_pfd g 0%nat) in
  returned (net_connect os fuel ai g w)
  = Some (if fst (set_nonblock os s false w) then s else -1)
  /\ final_world (net_connect os fuel ai g w) = snd (set_nonblock os s false w).
Proof.
  intros H4 H6. cbv zeta.
  unfold net_connect, net_connect_m, race. rewrite scan_first, H4, H6, enter_cells.
  unfold open_sockets, open_slot, start_connecting, got_one, out, close_body.
  destruct fuel; cbn [poll_loop]; run;
    destruct (set_nonblock os (fd (stk_pfd g 0%nat)) false w) as [[|] [e t]];
    run; split; reflexivity.
Qed.

Lemma net_connect_without_candidates_witness :
  returned (net_connect (scripted script_empty) 0 [] zeroed boot)
  = Some (if fst (set_nonblock (scripted script_empty) 0 false boot) then 0 else -1)
  /\ final_world (net_connect (scripted script_empty) 0 [] zeroed boot)
     = snd (set_nonblock (scripted script_empty) 0 false boot).
Proof.
  exact (net_connect_without_candidates (scripted script_empty) 0 [] zeroed boot
                                        eq_refl eq_refl).
Defined.

(** ** [net_connect] stays within its own descriptors *)

Lemma created_app evs1 evs2 : created (evs1 ++ evs2) = created evs1 ++ created evs2.
Proof. apply omap_app. Qed.

Lemma safe_mono C C' ev : (forall s, In s C -> In s C') -> safe C ev -> safe C' ev.
Proof.
  intros HC. destruct ev; cbn [safe]; auto.
  intros (Hne & Hlen & Hall). split; [exact Hne|]. split; [exact Hlen|].
  eapply Forall_impl; [exact Hall|]. intros p [He Hp]. split; auto.
Qed.

Lemma racing_safe C evs : Forall (racing C) evs -> Forall (safe C) evs.
Proof.
  intros K. eapply Forall_impl; [exact K|]. intros ev. destruct ev; cbn; tauto.
Qed.

Lemma closing_safe C evs : Forall (closing C) evs -> Forall (safe C) evs.
Proof.
  intros K. eapply Forall_impl; [exact K|]. intros ev. destruct ev; cbn; tauto.
Qed.

Lemma fcntl_racing C evs : Forall (fun ev => is_fcntl ev = true) evs -> Forall (racing C) evs.
Proof.
  intros K. eapply Forall_impl; [exact K|].
  intros ev H. destruct ev; try discriminate H; exact I.
Qed.

Lemma fcntl_closing C evs : Forall (fun ev => is_fcntl ev = true) evs -> Forall (closing C) evs.
Proof.
  intros K. eapply Forall_impl; [exact K|].
  intros ev H. destruct ev; try discriminate H; exact I.
Qed.

Lemma racing_created C evs : Forall (racing C) evs -> created evs = [].
Proof.
  induction 1 as [|ev l Hev Hl IH]; [reflexivity|].
  destruct ev; cbn in Hev; try contradiction; exact IH.
Qed.

Lemma closing_created C evs : Forall (closing C) evs -> created evs = [].
Proof.
  induction 1 as [|ev l Hev Hl IH]; [reflexivity|].
  destruct ev; cbn in Hev; try contradiction; exact IH.
Qed.

Lemma racing_no_close C evs s : Forall (racing C) evs -> ~ In (EvClose s) evs.
Proof.
  intros K Hin. rewrite Forall_forall in K. apply (K (EvClose s)).
  apply list_elem_of_In. exact Hin.
Qed.

Lemma sockets_no_close evs s :
  Forall (fun ev => is_socket ev = true) evs -> ~ In (EvClose s) evs.
Proof.
  intros K Hin. rewrite Forall_forall in K.
  discriminate (K (EvClose s) (proj2 (list_elem_of_In _ _) Hin)).
Qed.

(** The parts of a postcondition about descriptors. *)
Ltac own :=
  repeat match goal with
         | |- _ /\ _ => split
         | |- True => exact I
         | |- Forall _ [] => constructor
         | |- Forall _ (_ ++ _) => apply Forall_app; split
         | |- Forall _ (_ :: _) => constructor
         | K : Forall (fun ev => is_fcntl ev = true) ?evs |- Forall (racing _) ?evs =>
             apply fcntl_racing; exact K
         | K : Forall (fun ev => is_fcntl ev = true) ?evs |- Forall (closing _) ?evs =>
             apply fcntl_closing; exact K
         | |- racing _ _ => cbn [racing safe]
         | |- closing _ _ => cbn [closing]
         | |- polled_entry _ _ =>
             unfold polled_entry; cbn [fd events set_fd set_events set_revents]
         | |- held _ _ _ =>
             constructor; cbn [fd events set_fd set_events set_revents]
         | |- _ <> [] => discriminate
         | |- (_ <= _)%nat => cbn [length]; lia
         | |- In _ _ => assumption
         | |- @eq Z _ _ => first [ reflexivity | assumption ]
         end.

Lemma open_sockets_held os (ipv4 ipv6 : option addrinfo) g w :
  exists fr w' evs,
    open_sockets os ipv4 ipv6 (enter g) w = Ret tt fr w'
    /\ trace w' = trace w ++ evs
    /\ Forall (fun ev => is_socket ev = true) evs
    /\ held (created evs) false fr.
Proof.
  rewrite enter_cells. unfold open_sockets, open_slot.
  destruct ipv6 as [a6|]; destruct ipv4 as [a4|]; run.
  all: repeat (call; run;
               match goal with
               | |- context [?s =? -1] => destruct (s =? -1) eqn:?
               end; run).
  all: do 3 eexists; (split; [reflexivity|]).
  all: split; [history; try (rewrite app_nil_r; reflexivity)|].
  all: split; [repeat constructor|].
  all: unfold created; cbn [omap list_omap app]; decided; cbn [omap list_omap app].
  all: constructor; cbn [fd set_fd In]; auto.
Qed.

Ltac held_cases H :=
  destruct H as [sk ix p0 p1 a0 a1 s0 s1 | sk ix p0 p1 a0 a1 s0 s1 Hp0 Ha
                | sk ix p0 p1 a0 a1 s0 s1 Hp0 Hp1 Ha];
  [ | | try match type of Ha with
            | _ /\ _ => destruct Ha as [? ?]
            end ].

Lemma start_connecting_held os C fr w :
  held C false fr ->
  sat w (start_connecting os fr w)
      (fun c fr' evs =>
         Forall (racing C) evs
         /\ match c with
            | Next => held C true fr'
            | GotOne => held C false fr'
            | Out => False
            end)
      (fun evs => Forall (racing C) evs)
      (fun _ => False).
Proof.
  intros H. held_cases H; destruct a0 as [a0|]; destruct a1 as [a1|];
    unfold start_connecting, connect_body; exec; leaf; run; own.
Qed.

Lemma poll_pfd_held os C fr w :
  held C true fr -> num fr <> 0 ->
  sat w (poll_pfd os fr w)
      (fun _ fr' evs => Forall (racing C) evs /\ held C true fr')
      (fun _ => False)
      (fun _ => False).
Proof.
  intros H Hn. held_cases H; cbn [num] in Hn; try contradiction;
    unfold poll_pfd; exec; leaf; run; own.
Qed.

Lemma poll_inner_held os C fr w :
  held C true fr -> i fr = 0 ->
  sat w (for_loop (poll_body os) fr w)
      (fun _ fr' evs => Forall (racing C) evs /\ held C true fr')
      (fun _ => False)
      (fun _ => False).
Proof.
  intros H Hi. held_cases H; cbn [i] in Hi; subst ix;
    unfold poll_body; exec; leaf; run; own.
Qed.

Lemma held_set_i C b v fr : held C b fr -> held C b (set_i v fr).
Proof. intros H. destruct H; constructor; assumption. Qed.

Lemma held_disarm C fr : held C true fr -> held C false fr.
Proof. intros H. destruct H; constructor; auto. Qed.

Lemma poll_loop_held os C fuel fr w :
  held C true fr ->
  sat w (poll_loop os fuel fr w)
      (fun _ fr' evs => Forall (racing C) evs /\ held C true fr')
      (fun _ => False)
      (fun evs => Forall (racing C) evs).
Proof.
  revert fr w. induction fuel as [|fuel IH]; intros fr w H;
    rewrite poll_loop_unfold; destruct (num fr =? 0) eqn:En.
  - apply sat_ret. split; [constructor | exact H].
  - exists []. split; [symmetry; apply app_nil_r | constructor].
  - apply sat_ret. split; [constructor | exact H].
  - apply Z.eqb_neq in En.
    eapply sat_bind; [apply poll_pfd_held; eassumption | | | ]; cbn beta.
    + intros r fr1 w1 evs1 [K1 H1] T1. destruct (r =? -1).
      * apply sat_ret. rewrite app_nil_r. split; assumption.
      * eapply sat_bind;
          [apply (poll_inner_held os C); [apply held_set_i; exact H1 | reflexivity]
          | | | ]; cbn beta.
        -- intros c fr2 w2 evs2 [K2 H2] T2. destruct c.
           ++ eapply sat_weaken; [apply IH; exact H2 | | | ]; cbn beta.
              ** intros c3 fr3 evs3 [K3 H3].
                 split; [repeat (apply Forall_app; split); assumption | exact H3].
              ** intros evs3 [].
              ** intros evs3 K3. repeat (apply Forall_app; split); assumption.
           ++ apply sat_ret. rewrite app_nil_r.
              split; [apply Forall_app; split; assumption | exact H2].
           ++ apply sat_ret. rewrite app_nil_r.
              split; [apply Forall_app; split; assumption | exact H2].
        -- intros evs2 [].
        -- intros evs2 [].
    + intros evs [].
    + intros evs [].
Qed.

Lemma fcntl_no_close evs s :
  Forall (fun ev => is_fcntl ev = true) evs -> ~ In (EvClose s) evs.
Proof.
  intros K Hin. rewrite Forall_forall in K.
  discriminate (K (EvClose s) (proj2 (list_elem_of_In _ _) Hin)).
Qed.

(** The result is not among the descriptors closed. *)
Ltac not_closed :=
  let Hin := fresh "Hin" in
  intros Hin; rewrite ?in_app_iff in Hin; cbn [In] in Hin;
  repeat match goal with
         | E : (_ =? _) = false |- _ => apply Z.eqb_neq in E
         end;
  repeat match goal with
         | H : _ \/ _ |- _ => destruct H
         | H : False |- _ => destruct H
         | H : In (EvClose ?s) ?evs, K : Forall (fun ev => is_fcntl ev = true) ?evs |- _ =>
             exact (fcntl_no_close evs s K H)
         | H : EvClose _ = EvClose _ |- _ => injection H as H; congruence
         end.

Lemma finish_held os C b fr w :
  held C b fr ->
  sat w (bind (got_one os) (fun _ => out os) fr w)
      (fun r _ evs => Forall (closing C) evs /\ ~ In (EvClose r) evs)
      (fun evs => Forall (closing C) evs)
      (fun _ => False).
Proof.
  intros H. held_cases H; unfold got_one, out, close_body; run;
    destruct (load [p0; p1] ix) as [p|]; exec; leaf; run;
    first [ split; [own | not_closed] | own ].
Qed.

Lemma out_held os C b fr w :
  held C b fr ->
  sat w (out os fr w)
      (fun r _ evs => Forall (closing C) evs /\ ~ In (EvClose r) evs)
      (fun _ => False)
      (fun _ => False).
Proof.
  intros H. held_cases H; unfold out, close_body; exec; leaf; run;
    (split; [own | not_closed]).
Qed.

Lemma race_held os fuel ai g w :
  sat w (race os fuel ai (enter g) w)
      (fun _ fr evs =>
         exists evo evr,
           evs = evo ++ evr /\ Forall (fun ev => is_socket ev = true) evo
           /\ Forall (racing (created evo)) evr /\ held (created evo) false fr)
      (fun evs =>
         exists evo evr,
           evs = evo ++ evr /\ Forall (fun ev => is_socket ev = true) evo
           /\ Forall (racing (created evo)) evr)
      (fun evs =>
         exists evo evr,
           evs = evo ++ evr /\ Forall (fun ev => is_socket ev = true) evo
           /\ Forall (racing (created evo)) evr).
Proof.
  unfold race. destruct (scan ai None None) as [ipv4 ipv6].
  destruct (open_sockets_held os ipv4 ipv6 g w) as (fr0 & w0 & evo & Hrun & T0 & Ko & H0).
  unfold bind at 1. rewrite Hrun.
  apply (sat_shift w w0 evo); [exact T0|].
  eapply sat_bind; [apply (start_connecting_held os (created evo)); exact H0 | | | ];
    cbn beta.
  - intros c fr1 w1 evs1 [K1 Hc1] T1. destruct c.
    + eapply sat_weaken; [apply poll_loop_held; exact Hc1 | | | ]; cbn beta.
      * intros c2 fr2 evs2 [K2 H2]. exists evo, (evs1 ++ evs2).
        split; [reflexivity|]. split; [exact Ko|].
        split; [apply Forall_app; split; assumption | apply held_disarm; exact H2].
      * intros evs2 [].
      * intros evs2 K2. exists evo, (evs1 ++ evs2).
        split; [reflexivity|]. split; [exact Ko|].
        apply Forall_app; split; assumption.
    + apply sat_ret. exists evo, evs1. rewrite app_nil_r.
      split; [reflexivity|]. split; [exact Ko|]. split; assumption.
    + destruct Hc1.
  - intros evs1 K1. exists evo, evs1. split; [reflexivity|]. split; assumption.
  - intros evs1 [].
Qed.

Lemma sockets_safe C evs : Forall (fun ev => is_socket ev = true) evs -> Forall (safe C) evs.
Proof.
  intros K. eapply Forall_impl; [exact K|].
  intros ev H. destruct ev; try discriminate H; exact I.
Qed.

Lemma sockets_created_nil_r evo evr C :
  Forall (racing C) evr -> created (evo ++ evr) = created evo.
Proof. intros K. rewrite created_app, (racing_created C evr K). apply app_nil_r. Qed.

(** The whole call, for what it does with descriptors. *)
Lemma net_connect_held os fuel ai g w :
  sat w (net_connect os fuel ai g w)
      (fun r _ evs => Forall (safe (created evs)) evs /\ ~ In (EvClose r) evs)
      (fun evs => Forall (safe (created evs)) evs)
      (fun evs => Forall (safe (created evs)) evs).
Proof.
  assert (Hrace : forall evo evr,
             Forall (fun ev => is_socket ev = true) evo ->
             Forall (racing (created evo)) evr ->
             Forall (safe (created (evo ++ evr))) (evo ++ evr)).
  { intros evo evr Ko Kr. rewrite (sockets_created_nil_r evo evr _ Kr).
    apply Forall_app. split; [apply sockets_safe; exact Ko | apply racing_safe; exact Kr]. }
  assert (Hfin : forall evo evr evf,
             Forall (fun ev => is_socket ev = true) evo ->
             Forall (racing (created evo)) evr ->
             Forall (closing (created evo)) evf ->
             Forall (safe (created ((evo ++ evr) ++ evf))) ((evo ++ evr) ++ evf)).
  { intros evo evr evf Ko Kr Kf.
    rewrite created_app, (closing_created _ evf Kf), app_nil_r.
    rewrite (sockets_created_nil_r evo evr _ Kr).
    repeat (apply Forall_app; split);
      [apply sockets_safe; exact Ko | apply racing_safe; exact Kr
       | apply closing_safe; exact Kf]. }
  assert (Hkeep : forall evo evr evf r,
             Forall (fun ev => is_socket ev = true) evo ->
             Forall (racing (created evo)) evr ->
             ~ In (EvClose r) evf -> ~ In (EvClose r) ((evo ++ evr) ++ evf)).
  { intros evo evr evf r Ko Kr Hf Hin. rewrite !in_app_iff in Hin.
    destruct Hin as [[Hin|Hin]|Hin].
    - exact (sockets_no_close evo r Ko Hin).
    - exact (racing_no_close _ evr r Kr Hin).
    - exact (Hf Hin). }
  unfold net_connect, net_connect_m.
  eapply sat_bind; [apply race_held | | | ]; cbn beta.
  - intros c fr1 w1 evs1 (evo & evr & -> & Ko & Kr & H1) T1.
    destruct c;
      [ eapply sat_weaken; [apply (finish_held os _ _ fr1 w1 H1) | | | ]
      | eapply sat_weaken; [apply (finish_held os _ _ fr1 w1 H1) | | | ]
      | change (bind (ret ()) (fun _ => out os) fr1 w1) with (out os fr1 w1);
        eapply sat_weaken; [apply (out_held os _ _ fr1 w1 H1) | | | ] ];
      cbn beta.
    all: try (intros r fr2 evf [Kf Hf]; split; [apply Hfin | apply Hkeep]; assumption).
    all: try (intros evf Kf; apply Hfin; assumption).
    all: intros evf [].
  - intros evs (evo & evr & -> & Ko & Kr). apply Hrace; assumption.
  - intros evs (evo & evr & -> & Ko & Kr). apply Hrace; assumption.
Qed.

(** X12: [net_connect] stays within the descriptors its own [socket] calls
    handed out: whatever the operating system does and however the run
    ends, it calls [connect], [getsockopt] and [close] only on those
    descriptors, calls [poll] only with one or two entries, each armed for
    writability on one of those descriptors, and never calls [setsockopt],
    [bind] or [listen]. *)
Theorem net_connect_within_own_descriptors os fuel ai g w :
  Forall (safe (created (run_calls w (net_connect os fuel ai g w))))
         (run_calls w (net_connect os fuel ai g w)).
Proof.
  destruct (net_connect_held os fuel ai g w) as [evs [T H]].
  rewrite (run_calls_sat _ _ _ T).
  destruct (net_connect os fuel ai g w); [destruct H as [H _]| |]; exact H.
Qed.

(** X13: [net_connect] never closes the descriptor it returns. *)
Theorem net_connect_result_not_closed os fuel ai g w r :
  returned (net_connect os fuel ai g w) = Some r ->
  ~ In (EvClose r) (run_calls w (net_connect os fuel ai g w)).
Proof.
  intros Hr. destruct (net_connect_held os fuel ai g w) as [evs [T H]].
  rewrite (run_calls_sat _ _ _ T).
  destruct (net_connect os fuel ai g w) as [r' fr w'|w'|w']; try discriminate Hr.
  injection Hr as ->. destruct H as [_ H]. exact H.
Qed.

Lemma net_connect_result_not_closed_witness :
  ~ In (EvClose 3)
       (run_calls boot (net_connect (scripted script_instant) 0 [v6 600; v4 400]
                                    zeroed boot)).
Proof.
  apply net_connect_result_not_closed. vm_compute. reflexivity.
Defined.

(** ** [connect] is only called on non-blocking sockets *)

Lemma guarded_app pre evs1 evs2 :
  guarded pre evs1 -> guarded (pre ++ evs1) evs2 -> guarded pre (evs1 ++ evs2).
Proof.
  revert pre. induction evs1 as [|ev evs1 IH]; intros pre H1 H2.
  - rewrite app_nil_r in H2. exact H2.
  - destruct H1 as [Hev H1]. split; [exact Hev|].
    apply IH; [exact H1|]. rewrite <- app_assoc. exact H2.
Qed.

Lemma guarded_no_connect pre evs :
  Forall (fun ev => is_connect ev = false) evs -> guarded pre evs.
Proof.
  intros K. revert pre. induction K as [|ev evs Hev K IH]; intros pre; [exact I|].
  split; [|apply IH]. destruct ev; try exact I. discriminate Hev.
Qed.

Lemma guarded_split pre0 evs pre s sa len r post :
  guarded pre0 evs -> evs = pre ++ EvConnect s sa len r :: post ->
  exists pre' flags,
    pre0 ++ pre = pre' ++ [EvGetfl s flags; EvSetfl s (Z.lor flags O_NONBLOCK) 0].
Proof.
  revert pre0 evs. induction pre as [|ev pre IH]; intros pre0 evs H ->.
  - destruct H as [H _]. rewrite app_nil_r. exact H.
  - destruct H as [_ H]. destruct (IH _ _ H eq_refl) as (pre' & flags & E).
    exists pre', flags. rewrite <- E, <- app_assoc. reflexivity.
Qed.

Lemma no_connect_of_sockets evs :
  Forall (fun ev => is_socket ev = true) evs -> Forall (fun ev => is_connect ev = false) evs.
Proof. intros K. eapply Forall_impl; [exact K|]. by_kind. Qed.

Lemma no_connect_of_wait evs :
  Forall (fun ev => ev_wait ev = true) evs -> Forall (fun ev => is_connect ev = false) evs.
Proof. intros K. eapply Forall_impl; [exact K|]. by_kind. Qed.

Lemma no_connect_of_finish evs :
  Forall (fun ev => ev_finish ev = true) evs -> Forall (fun ev => is_connect ev = false) evs.
Proof. intros K. eapply Forall_impl; [exact K|]. by_kind. Qed.

(** Two facts about one run. *)
Lemma sat_and {A : Type} w (o : outcome Frame A)
      (Q1 Q2 : A -> Frame -> list event -> Prop) (U1 U2 S1 S2 : list event -> Prop) :
  sat w o Q1 U1 S1 -> sat w o Q2 U2 S2 ->
  sat w o (fun a fr evs => Q1 a fr evs /\ Q2 a fr evs)
      (fun evs => U1 evs /\ U2 evs) (fun evs => S1 evs /\ S2 evs).
Proof.
  intros [evs1 [T1 H1]] [evs2 [T2 H2]].
  assert (evs2 = evs1) by (apply (app_inv_head (trace w)); congruence). subst evs2.
  exists evs1. split; [exact T1|]. destruct o; split; assumption.
Qed.

(** Name the results of the [fcntl] calls of an unfolded [set_nonblock]. *)
Ltac call_fcntl :=
  match goal with
  | |- context [os_getfl ?os ?w ?s] => destruct (os_getfl os w s) as [? ?]
  | |- context [os_setfl ?os ?w ?s ?fl] => destruct (os_setfl os w s fl) as [? ?]
  end.

Ltac exec_fcntl :=
  run;
  repeat (first [ call_fcntl
                | call
                | match goal with
                  | |- context [if negb ?b then _ else _] => destruct b eqn:?
                  | |- context [if ?b then _ else _] => destruct b eqn:?
                  end ];
          cbn [trace record errno] in *;
          run).

Ltac leaf_fcntl :=
  unfold sat; cbn [final_world]; eexists;
  split;
  [ cbn [set_errno trace record];
    repeat match goal with
           | T : trace ?w = _ |- context [trace ?w] =>
               rewrite T; cbn [set_errno trace record]
           end;
    rewrite <- ?app_assoc;
    first [ reflexivity | symmetry; apply app_nil_r ]
  | cbn beta iota zeta ].

(** A [connect] at the head of what is left comes right after the two
    calls that switched its descriptor. *)
Ltac switched :=
  repeat match goal with
         | H : (?r =? 0) = true |- _ => apply Z.eqb_eq in H; subst r
         end;
  cbn [guarded app];
  repeat match goal with
         | |- _ /\ _ => split
         | |- True => exact I
         | |- exists _ _, _ = _ =>
             rewrite <- (app_assoc _ [_] [_]); eexists _, _; reflexivity
         end.

Lemma start_connecting_guarded os C fr w pre :
  held C false fr ->
  sat w (start_connecting os fr w)
      (fun _ _ evs => guarded pre evs)
      (fun evs => guarded pre evs)
      (fun _ => False).
Proof.
  intros H. held_cases H; destruct a0 as [a0|]; destruct a1 as [a1|];
    unfold start_connecting, connect_body, set_nonblock, sys_getfl, sys_setfl;
    exec_fcntl.
  all: leaf_fcntl; run; switched.
Qed.

Lemma race_guarded os fuel ai g w :
  sat w (race os fuel ai (enter g) w)
      (fun _ fr evs => guarded [] evs /\ live fr)
      (fun evs => guarded [] evs)
      (fun evs => guarded [] evs).
Proof.
  unfold race. rewrite scan_first.
  destruct (open_sockets_run os (first_of AF_INET ai) (first_of AF_INET6 ai) g w)
    as (fr0 & w0 & evs0 & Hrun & Hlive & Hsk & T0 & Ksock & _ & _).
  destruct (open_sockets_held os (first_of AF_INET ai) (first_of AF_INET6 ai) g w)
    as (fr0' & w0' & evs0' & Hrun' & _ & _ & H0).
  rewrite Hrun in Hrun'. injection Hrun' as <- <-.
  unfold bind at 1. rewrite Hrun.
  apply (sat_shift w w0 evs0); [exact T0|].
  assert (Hpre : forall evs, guarded evs0 evs -> guarded [] (evs0 ++ evs)).
  { intros evs Hg. apply guarded_app; [|exact Hg].
    apply guarded_no_connect, no_connect_of_sockets. exact Ksock. }
  eapply sat_bind;
    [exact (sat_and _ _ _ _ _ _ _ _
                    (start_connecting_spec os fr0 w0 Hlive Hsk)
                    (start_connecting_guarded os _ fr0 w0 evs0 H0)) | | | ];
    cbn beta.
  - intros c fr1 w1 evs1 [(Hl1 & Hsk1 & _ & _ & Hc1) G1] T1. destruct c.
    + eapply sat_weaken; [apply poll_loop_spec; assumption | | | ]; cbn beta.
      * intros c2 fr2 evs2 (Hl2 & _ & Hk2 & _). split; [|exact Hl2].
        apply Hpre, guarded_app; [exact G1|].
        apply guarded_no_connect, no_connect_of_wait. exact Hk2.
      * intros evs2 [].
      * intros evs2 [Hk2 _]. apply Hpre, guarded_app; [exact G1|].
        apply guarded_no_connect, no_connect_of_wait. exact Hk2.
    + apply sat_ret. rewrite app_nil_r. split; [apply Hpre; exact G1 | exact Hl1].
    + destruct Hc1.
  - intros evs1 [_ G1]. apply Hpre. exact G1.
  - intros evs1 [[] _].
Qed.

Lemma net_connect_guarded os fuel ai g w :
  sat w (net_connect os fuel ai g w)
      (fun _ _ evs => guarded [] evs)
      (fun evs => guarded [] evs)
      (fun evs => guarded [] evs).
Proof.
  assert (Hfin : forall evs1 evs2,
             guarded [] evs1 -> Forall (fun ev => ev_finish ev = true) evs2 ->
             guarded [] (evs1 ++ evs2)).
  { intros evs1 evs2 G1 K2. apply guarded_app; [exact G1|].
    apply guarded_no_connect, no_connect_of_finish. exact K2. }
  unfold net_connect, net_connect_m.
  eapply sat_bind; [apply race_guarded | | | ]; cbn beta.
  - intros c fr1 w1 evs1 [G1 Hl1] T1.
    destruct c;
      [ eapply sat_weaken; [apply finish_any; exact Hl1 | | | ]
      | eapply sat_weaken; [apply finish_any; exact Hl1 | | | ]
      | change (bind (ret ()) (fun _ => out os) fr1 w1) with (out os fr1 w1);
        eapply sat_weaken; [apply out_spec; exact Hl1 | | | ] ];
      cbn beta.
    all: try (intros r fr2 evs2 K2; apply Hfin; assumption).
    all: try (intros evs2 K2; apply Hfin; assumption).
    all: intros evs2 [].
  - intros evs G. exact G.
  - intros evs G. exact G.
Qed.

(** X14: [net_connect] never starts a blocking connection: every [connect]
    call comes right after the two [fcntl] calls of [set_nonblock] on the
    same descriptor, the [F_SETFL] among them passing the flags read with
    [O_NONBLOCK] set and returning 0. *)
Theorem net_connect_connects_nonblocking os fuel ai g w pre s sa len r post :
  run_calls w (net_connect os fuel ai g w) = pre ++ EvConnect s sa len r :: post ->
  exists pre' flags,
    pre = pre' ++ [EvGetfl s flags; EvSetfl s (Z.lor flags O_NONBLOCK) 0].
Proof.
  intros Hrun.
  destruct (net_connect_guarded os fuel ai g w) as [evs [T H]].
  rewrite (run_calls_sat _ _ _ T) in Hrun.
  assert (G : guarded [] evs) by (destruct (net_connect os fuel ai g w); exact H).
  exact (guarded_split [] evs pre s sa len r post G Hrun).
Qed.

Lemma net_connect_connects_nonblocking_witness :
  exists pre' flags,
    [EvSocket AF_INET6 SOCK_STREAM 0 3; EvSocket AF_INET SOCK_STREAM 0 4;
     EvGetfl 3 2; EvSetfl 3 2050 0]
    = pre' ++ [EvGetfl 3 flags; EvSetfl 3 (Z.lor flags O_NONBLOCK) 0].
Proof.
  apply (net_connect_connects_nonblocking
           (scripted script_instant) 0 [v6 600; v4 400] zeroed boot
           [EvSocket AF_INET6 SOCK_STREAM 0 3; EvSocket AF_INET SOCK_STREAM 0 4;
            EvGetfl 3 2; EvSetfl 3 2050 0]
           3 600 sizeof_sockaddr_in6 0
           [EvGetfl 3 2050; EvSetfl 3 2 0; EvClose 4]).
  vm_compute. reflexivity.
Defined.

(** ** What [net_connect] hands out is in blocking mode *)

Lemma finish_blocking os fr w :
  live fr -> sockfd fr = -1 ->
  sat w (bind (got_one os) (fun _ => out os) fr w)
      (fun r _ evs =>
         r <> -1 ->
         exists flags closes,
           evs = [EvGetfl r flags; EvSetfl r (Z.land flags (Z.lnot O_NONBLOCK)) 0]
                 ++ closes
           /\ Forall (fun ev => is_close ev = true) closes)
      (fun _ => True)
      (fun _ => False).
Proof.
  intros Hlive Hsk.
  destruct Hlive as [sk ix p0 p1 a0 a1 s0 s1 | sk ix p0 p1 a0 a1 s0 s1 Hp0
                    | sk ix p0 p1 a0 a1 s0 s1 Hp0 Hp1];
    cbn [sockfd] in Hsk; subst sk;
    unfold got_one, out, close_body, set_nonblock, sys_getfl, sys_setfl; run;
    destruct (load [p0; p1] ix) as [p|]; exec_fcntl; leaf_fcntl; run;
    try exact I;
    repeat match goal with
           | H : (?r =? 0) = true |- _ => apply Z.eqb_eq in H; subst r
           end;
    intros Hr; try (exfalso; apply Hr; reflexivity);
    eexists _, _; (split; [reflexivity | repeat constructor]).
Qed.

Lemma net_connect_blocking os fuel ai g w :
  sat w (net_connect os fuel ai g w)
      (fun r _ evs =>
         r <> -1 ->
         exists pre flags closes,
           evs = pre ++ [EvGetfl r flags; EvSetfl r (Z.land flags (Z.lnot O_NONBLOCK)) 0]
                 ++ closes
           /\ Forall (fun ev => is_close ev = true) closes)
      (fun _ => True)
      (fun _ => True).
Proof.
  unfold net_connect, net_connect_m.
  eapply sat_bind; [apply race_spec | | | ]; cbn beta.
  - intros c fr1 w1 evs1 (_ & Hl & Hsk & _) T1.
    destruct c;
      [ eapply sat_weaken; [apply finish_blocking; assumption | | | ]
      | eapply sat_weaken; [apply finish_blocking; assumption | | | ]
      | change (bind (ret ()) (fun _ => out os) fr1 w1) with (out os fr1 w1) ];
      cbn beta.
    all: try (intros r fr2 evs2 H Hr; destruct (H Hr) as (flags & closes & -> & K);
              exists evs1, flags, closes; split; [reflexivity | exact K]).
    all: try (intros evs2 _; exact I).
    all: try (intros evs2 []).
    destruct (out_run os fr1 w1 Hl) as (fr2 & w2 & E & _ & Hc).
    rewrite E. exists (calls_since w1 w2). split.
    + unfold calls_since. cbn [final_world].
      destruct (out_spec os fr1 w1 Hl) as [evs2 [T2 _]]. rewrite E in T2.
      cbn [final_world] in T2. rewrite T2, drop_app_length. reflexivity.
    + intros Hr. contradiction.
  - intros evs _. exact I.
  - intros evs _. exact I.
Qed.

(** X15: [net_connect] hands out no descriptor it has not just switched to
    blocking mode: when it returns anything but -1, the last calls before
    the cleanup are the two [fcntl] calls of [set_nonblock] on the returned
    descriptor, the [F_SETFL] passing the flags read with [O_NONBLOCK]
    cleared and returning 0, and only [close] calls follow. *)
Theorem net_connect_result_blocking os fuel ai g w r :
  returned (net_connect os fuel ai g w) = Some r -> r <> -1 ->
  exists pre flags closes,
    run_calls w (net_connect os fuel ai g w)
    = pre ++ [EvGetfl r flags; EvSetfl r (Z.land flags (Z.lnot O_NONBLOCK)) 0]
          ++ closes
    /\ Forall (fun ev => is_close ev = true) closes.
Proof.
  intros Hret Hr.
  destruct (net_connect_blocking os fuel ai g w) as [evs [T H]].
  rewrite (run_calls_sat _ _ _ T).
  destruct (net_connect os fuel ai g w) as [r' fr w'|w'|w']; try discriminate Hret.
  injection Hret as ->. exact (H Hr).
Qed.

Lemma net_connect_result_blocking_witness :
  exists pre flags closes,
    run_calls boot (net_connect (scripted script_instant) 0 [v6 600; v4 400]
                                zeroed boot)
    = pre ++ [EvGetfl 3 flags; EvSetfl 3 (Z.land flags (Z.lnot O_NONBLOCK)) 0]
          ++ closes
    /\ Forall (fun ev => is_close ev = true) closes.
Proof.
  apply net_connect_result_blocking.
  - vm_compute. reflexivity.
  - discriminate.
Defined.

(** ** After the winner *)

Lemma net_connect_decided os fuel ai g w :
  sat w (net_connect os fuel ai g w)
      (fun _ _ evs =>
         quiet evs
         \/ exists pre ev s post,
             evs = pre ++ ev :: post /\ wins ev = Some s /\ quiet pre
             /\ Forall (fun e => ev_finish e = true) post)
      (fun evs => quiet evs)
      (fun evs => quiet evs).
Proof.
  unfold net_connect, net_connect_m.
  eapply sat_bind; [apply race_spec | | | ]; cbn beta.
  - intros c fr1 w1 evs1 (_ & Hl & Hsk & Hc) T1. destruct c.
    + eapply sat_weaken; [apply finish_any; exact Hl | | | ]; cbn beta.
      * intros r fr2 evs2 K. destruct (only_finish evs2 K) as (_ & _ & Hq2 & _).
        left. apply quiet_app; assumption.
      * intros evs2 K. destruct (only_finish evs2 K) as (_ & _ & Hq2 & _).
        apply quiet_app; assumption.
      * intros evs2 [].
    + destruct Hc as [[Hi (evs0 & ev & p & -> & Hw & Hp & Hq0)] _].
      eapply sat_weaken; [apply (finish_won os fr1 w1 p); assumption | | | ];
        cbn beta.
      * intros r fr2 evs2 [K _]. right. exists evs0, ev, (fd p), evs2.
        split; [rewrite <- app_assoc; reflexivity|]. auto.
      * intros evs2 [].
      * intros evs2 [].
    + change (bind (ret ()) (fun _ => out os) fr1 w1) with (out os fr1 w1).
      eapply sat_weaken; [apply out_spec; exact Hl | | | ]; cbn beta.
      * intros r fr2 evs2 K. destruct (only_finish evs2 K) as (_ & _ & Hq2 & _).
        left. apply quiet_app; assumption.
      * intros evs2 [].
      * intros evs2 [].
  - intros evs [_ H]. exact H.
  - intros evs [_ H]. exact H.
Qed.

(** X16: the first success decides the race: a call that declares a
    descriptor connected ([connect] returning 0, or [getsockopt] reporting
    no pending error) is the only such call of the run, and after it
    [net_connect] makes only [fcntl] and [close] calls: no other candidate
    is connected, waited for or queried. *)
Theorem net_connect_first_success_decides os fuel ai g w pre ev s post :
  run_calls w (net_connect os fuel ai g w) = pre ++ ev :: post ->
  wins ev = Some s ->
  quiet pre /\ Forall (fun e => ev_finish e = true) post.
Proof.
  intros Hrun Hw.
  destruct (net_connect_decided os fuel ai g w) as [evs [T H]].
  rewrite (run_calls_sat _ _ _ T) in Hrun. subst evs.
  assert (Hnot : quiet (pre ++ ev :: post) -> False).
  { intros Hq. eapply quiet_not_winner; [exact Hq | reflexivity | exact Hw]. }
  destruct (net_connect os fuel ai g w) as [r fr w'|w'|w'];
    [|destruct (Hnot H)|destruct (Hnot H)].
  destruct H as [Hq | (pre0 & ev0 & s0 & post0 & Heq & Hw0 & Hq0 & Kf)];
    [destruct (Hnot Hq)|].
  destruct (only_finish post0 Kf) as (_ & _ & Hqp & _).
  destruct (winner_unique _ _ _ _ _ _ _ Heq Hw Hq0 Hqp) as (-> & -> & ->).
  split; assumption.
Qed.

Lemma net_connect_first_success_decides_witness :
  quiet [EvSocket AF_INET6 SOCK_STREAM 0 3; EvSocket AF_INET SOCK_STREAM 0 4;
         EvGetfl 3 2; EvSetfl 3 2050 0]
  /\ Forall (fun e => ev_finish e = true) [EvGetfl 3 2050; EvSetfl 3 2 0; EvClose 4].
Proof.
  apply (net_connect_first_success_decides
           (scripted script_instant) 0 [v6 600; v4 400] zeroed boot
           [EvSocket AF_INET6 SOCK_STREAM 0 3; EvSocket AF_INET SOCK_STREAM 0 4;
            EvGetfl 3 2; EvSetfl 3 2050 0]
           (EvConnect 3 600 sizeof_sockaddr_in6 0) 3
           [EvGetfl 3 2050; EvSetfl 3 2 0; EvClose 4]).
  - vm_compute. reflexivity.
  - reflexivity.
Defined.
